(** * Shaka game: the player rules and the multiplayer client reconciler

    A shallow embedding of [src/utils/player.js] (class [Player]) and of the
    game-state part of [src/multiplayer/main.js] (class [MultiplayerGame]),
    followed by the properties of the specification that concern them.

    Conventions of the embedding.
    - JavaScript numbers that the game uses as counters, positions and labels
      are integers far below 2^53, so they are modelled by [Z].
    - An object mutated in place becomes a record threaded through the
      function: a method [m(args)] of a player is a function that takes the
      player and returns the updated player next to the method's result.
    - The board is the array of its buttons.  A reference to a button is its
      index in that array, so that two references to one cell alias.
    - [console.log] and [console.error] have no effect on the state and are
      left out. *)

From stdpp Require Import base list strings pretty.
From Stdlib Require Import ZArith Lia.

Local Open Scope Z_scope.

(** ** The presentation surface: buttons and their class lists *)

Module Dom.

(** [DOMTokenList]: an ordered set of class names. *)
Definition contains (c : string) (cl : list string) : bool :=
  bool_decide (c ∈ cl).

Definition add (c : string) (cl : list string) : list string :=
  if contains c cl then cl else cl ++ [c].

Definition remove (c : string) (cl : list string) : list string :=
  filter (λ x, x ≠ c) cl.

(** A board cell.  The board renders the label of a cell as a decimal
    numeral; the model keeps the number the numeral denotes, so that
    [innerHTML == target] and [parseInt(innerHTML, 10) === n] are comparisons
    of integers. *)
Record Button : Type := mkButton {
  innerHTML : Z;
  classList : list string
}.

Definition classList_add (c : string) (b : Button) : Button :=
  mkButton (innerHTML b) (add c (classList b)).

Definition classList_remove (c : string) (b : Button) : Button :=
  mkButton (innerHTML b) (remove c (classList b)).

Definition classList_contains (c : string) (b : Button) : bool :=
  contains c (classList b).

(** [buttons[i]] for a number [i]: [undefined] below 0 and past the end. *)
Definition item (buttons : list Button) (i : Z) : option Button :=
  if i <? 0 then None else buttons !! Z.to_nat i.

(** An update in place of the element [buttons[i]] refers to. *)
Definition update (f : Button → Button) (buttons : list Button) (i : Z)
  : list Button :=
  if i <? 0 then buttons else alter f (Z.to_nat i) buttons.

End Dom.

Import Dom.

(** ** [src/utils/player.js] *)

Module Controls.

Record t : Type := mk {
  up : string;
  right : string;
  down : string;
  left : string;
  confirm : string
}.

(** The optional [config.controls] of the constructor. *)
Record partial : Type := mkPartial {
  p_up : option string;
  p_right : option string;
  p_down : option string;
  p_left : option string;
  p_confirm : option string
}.

End Controls.

Record Config : Type := mkConfig {
  cfg_name : option string;
  cfg_index : Z;
  cfg_controls : option Controls.partial;
  cfg_color : option string;
  cfg_startPosition : option Z
}.

Record Player : Type := mkPlayer {
  name : string;
  index : Z;
  controls : Controls.t;
  color : string;
  score : Z;
  moveCount : Z;
  power : Z;
  powerCounter : Z;
  saves : Z;
  stolen : Z;
  positionIndex : Z;
  isReady : bool
}.

Definition set_moveCount (v : Z) (p : Player) : Player :=
  mkPlayer (name p) (index p) (controls p) (color p) (score p) v (power p)
           (powerCounter p) (saves p) (stolen p) (positionIndex p) (isReady p).

Definition set_power (v : Z) (p : Player) : Player :=
  mkPlayer (name p) (index p) (controls p) (color p) (score p) (moveCount p) v
           (powerCounter p) (saves p) (stolen p) (positionIndex p) (isReady p).

Definition set_powerCounter (v : Z) (p : Player) : Player :=
  mkPlayer (name p) (index p) (controls p) (color p) (score p) (moveCount p)
           (power p) v (saves p) (stolen p) (positionIndex p) (isReady p).

Definition set_saves (v : Z) (p : Player) : Player :=
  mkPlayer (name p) (index p) (controls p) (color p) (score p) (moveCount p)
           (power p) (powerCounter p) v (stolen p) (positionIndex p) (isReady p).

Definition set_stolen (v : Z) (p : Player) : Player :=
  mkPlayer (name p) (index p) (controls p) (color p) (score p) (moveCount p)
           (power p) (powerCounter p) (saves p) v (positionIndex p) (isReady p).

Definition set_positionIndex (v : Z) (p : Player) : Player :=
  mkPlayer (name p) (index p) (controls p) (color p) (score p) (moveCount p)
           (power p) (powerCounter p) (saves p) (stolen p) v (isReady p).

Definition set_score (v : Z) (p : Player) : Player :=
  mkPlayer (name p) (index p) (controls p) (color p) v (moveCount p)
           (power p) (powerCounter p) (saves p) (stolen p) (positionIndex p)
           (isReady p).

(** [a || d] on an optional string: [undefined] and the empty string are
    falsy. *)
Definition or_string (a : option string) (d : string) : string :=
  match a with
  | Some s => if bool_decide (s = "") then d else s
  | None => d
  end.

(** [a || d] on an optional number: [undefined] and [0] are falsy. *)
Definition or_number (a : option Z) (d : Z) : Z :=
  match a with
  | Some n => if n =? 0 then d else n
  | None => d
  end.

(** [config.controls?.k || d]. *)
Definition control_or (c : option Controls.partial)
  (k : Controls.partial → option string) (d : string) : string :=
  or_string (c ≫= k) d.

(** [constructor(config)] *)
Definition constructor (config : Config) : Player :=
  {| name := or_string (cfg_name config) ("Player " +:+ pretty (cfg_index config));
     index := cfg_index config;
     controls :=
       Controls.mk
         (control_or (cfg_controls config) Controls.p_up "ArrowUp")
         (control_or (cfg_controls config) Controls.p_right "ArrowRight")
         (control_or (cfg_controls config) Controls.p_down "ArrowDown")
         (control_or (cfg_controls config) Controls.p_left "ArrowLeft")
         (control_or (cfg_controls config) Controls.p_confirm "Enter");
     color := or_string (cfg_color config) "#008000";
     score := 0;
     moveCount := 0;
     power := 0;
     powerCounter := 0;
     saves := 0;
     stolen := 0;
     positionIndex := or_number (cfg_startPosition config) 1;
     isReady := false |}.

Definition getFoundClass (p : Player) : string :=
  "founded-by-player" +:+ pretty (index p).

Definition getPositionClass (p : Player) : string :=
  "position-of-player" +:+ pretty (index p).

Definition getStolenClass (p : Player) : string :=
  "stolen" +:+ pretty (index p).

(** The [forEach] that clears the previous position: the buttons with the
    class removed, and whether some button carried it. *)
Fixpoint clearPreviousPosition (cls : string) (buttons : list Button)
  : list Button * bool :=
  match buttons with
  | [] => ([], false)
  | button :: rest =>
      let '(rest', found) := clearPreviousPosition cls rest in
      if classList_contains cls button
      then (classList_remove cls button :: rest', true)
      else (button :: rest', found)
  end.

(** "Adjust for board boundaries": the chain of [if]/[else if] of [move],
    on the position after [positionIndex += direction]. *)
Definition adjustBoundaries (positionIndex direction : Z) : Z :=
  if (positionIndex =? 110) || (positionIndex =? 101) then 1
  else if (positionIndex =? 101) && (direction =? 10) then 2
  else if (101 <? positionIndex) && (positionIndex <? 110) then positionIndex - 99
  else if positionIndex <? 1 then positionIndex + 99
  else if positionIndex =? -9 then 100
  else positionIndex.

(** "Keep position in bounds (safety check)". *)
Definition keepInBounds (positionIndex : Z) : Z :=
  let positionIndex := if positionIndex <? 1 then 1 else positionIndex in
  if 100 <? positionIndex then 100 else positionIndex.

(** The position [move] computes from the current one. *)
Definition nextPosition (positionIndex direction : Z) : Z :=
  keepInBounds (adjustBoundaries (positionIndex + direction) direction).

(** [move(direction, buttons)]: the player, the board and the returned
    position.  [buttons] is [None] for [undefined]. *)
Definition move (direction : Z) (buttons : option (list Button)) (p : Player)
  : Player * option (list Button) * Z :=
  match buttons with
  | None => (p, None, positionIndex p)
  | Some [] => (p, Some [], positionIndex p)
  | Some bs =>
      let '(bs1, foundPreviousPosition) :=
        clearPreviousPosition (getPositionClass p) bs in
      let p1 :=
        if foundPreviousPosition then set_moveCount (moveCount p + 1) p else p in
      let pos := nextPosition (positionIndex p1) direction in
      let p2 := set_positionIndex pos p1 in
      let bs2 :=
        match item bs1 (pos - 1) with
        | Some _ => update (classList_add (getPositionClass p2)) bs1 (pos - 1)
        | None => bs1
        end in
      (p2, Some bs2, pos)
  end.


(** What [checkTarget] returns: [true], [false], or one of the strings
    ['stolen-recovered'] and ['saved']. *)
Inductive CheckResult : Type :=
  | ResultBool (b : bool)
  | ResultString (s : string).

(** [const otherPlayerIndex = this.index === 1 ? 2 : 1] *)
Definition otherPlayerIndex (p : Player) : Z :=
  if index p =? 1 then 2 else 1.

(** [checkTarget(position, buttons, target)] *)
Definition checkTarget (position : Z) (buttons : list Button) (target : Z)
  (p : Player) : Player * list Button * CheckResult :=
  match item buttons (position - 1) with
  | None => (p, buttons, ResultBool false)
  | Some button =>
      if innerHTML button =? target then
        (p, update (classList_add (getFoundClass p)) buttons (position - 1),
         ResultBool true)
      else if classList_contains ("stolen" +:+ pretty (index p)) button then
        let buttons :=
          update (classList_remove ("stolen" +:+ pretty (index p)))
                 buttons (position - 1) in
        let buttons :=
          update (classList_add (getFoundClass p)) buttons (position - 1) in
        (set_powerCounter 0 (set_stolen (stolen p + 1) p), buttons,
         ResultString "stolen-recovered")
      else
        if classList_contains ("stolen" +:+ pretty (otherPlayerIndex p)) button
        then
          let buttons :=
            update (classList_remove ("stolen" +:+ pretty (otherPlayerIndex p)))
                   buttons (position - 1) in
          let buttons :=
            update (classList_add (getFoundClass p)) buttons (position - 1) in
          (set_powerCounter 0 (set_saves (saves p + 1) p), buttons,
           ResultString "saved")
        else (p, buttons, ResultBool false)
  end.

(** [incrementPower(opponent, opponentFoundElements)].

    [opponentFoundElements] is a list of references to cells of the board,
    given by their indices in [board].  [random] stands for the draw of
    [Math.random()]: [Math.floor(Math.random() * length)] is some index below
    [length], here [random mod length].  The acting player and the opponent
    are two objects.  The result is the acting player, the opponent, the
    board and the returned boolean. *)
Definition incrementPower (opponent : Player) (opponentFoundElements : list nat)
  (random : nat) (board : list Button) (p : Player)
  : Player * Player * list Button * bool :=
  let opponent := set_powerCounter 0 opponent in
  let p := set_powerCounter (powerCounter p + 1) p in
  if powerCounter p =? 3 then
    let p := set_power (power p + 1) p in
    if (0 <? length opponentFoundElements)%nat then
      let randomIndex := (random mod length opponentFoundElements)%nat in
      let elementToSteal := opponentFoundElements !!! randomIndex in
      let board :=
        alter (classList_remove (getFoundClass opponent)) elementToSteal board in
      let board :=
        alter (classList_add (getStolenClass p)) elementToSteal board in
      (p, opponent, board, true)
    else (p, opponent, board, false)
  else (p, opponent, board, false).

(** A sequence of moves of one player on one board. *)
Fixpoint moves (directions : list Z) (buttons : option (list Button))
  (p : Player) : Player * option (list Button) :=
  match directions with
  | [] => (p, buttons)
  | direction :: rest =>
      let '(p', buttons', _) := move direction buttons p in
      moves rest buttons' p'
  end.

(** The operations of [Player] that write [powerCounter], as the two players
    of a local game apply them to each other and to their board.  [actor] is
    [true] when player 1 acts. *)
Inductive PowerOp : Type :=
  | OpIncrementPower (actor : bool) (opponentFoundElements : list nat)
      (random : nat)
  | OpCheckTarget (actor : bool) (position : Z) (target : Z).

Record Table : Type := mkTable {
  player1 : Player;
  player2 : Player;
  board : list Button
}.

Definition applyOp (t : Table) (op : PowerOp) : Table :=
  match op with
  | OpIncrementPower true found random =>
      let '(p, o, b, _) :=
        incrementPower (player2 t) found random (board t) (player1 t) in
      mkTable p o b
  | OpIncrementPower false found random =>
      let '(p, o, b, _) :=
        incrementPower (player1 t) found random (board t) (player2 t) in
      mkTable o p b
  | OpCheckTarget true position target =>
      let '(p, b, _) := checkTarget position (board t) target (player1 t) in
      mkTable p (player2 t) b
  | OpCheckTarget false position target =>
      let '(p, b, _) := checkTarget position (board t) target (player2 t) in
      mkTable (player1 t) p b
  end.

Definition applyOps (t : Table) (ops : list PowerOp) : Table :=
  foldl applyOp t ops.

(** ** [src/multiplayer/main.js]: the client's game state *)

(** The room snapshot a [game_update] carries. *)
Module Room.

Record player : Type := mkPlayer {
  id : string;
  name : string;
  position : Z;
  score : Z
}.

Record t : Type := mk {
  players : list player;
  currentTarget : Z   (* [room.gameState.currentTarget] *)
}.

End Room.

(** The [lastMove] record of a [game_update].  [targetFound] is read for its
    truthiness only; a delta without the field has it [false]. *)
Module LastMove.

Record t : Type := mk {
  type : string;
  targetFound : bool;
  playerId : string
}.

End LastMove.

(** [MultiplayerPlayer]: the game builds it from the configuration of a
    [Player] plus [id] and [isCurrentPlayer], and uses it as a [Player].  Its
    class, [src/multiplayer/player.js], is not among the sources; the two
    methods it adds that the game calls, [updatePosition] and
    [addFoundAnimation], are parameters of the reconciler below. *)
Module MultiplayerPlayer.

Record t : Type := mk {
  id : string;
  isCurrentPlayer : bool;
  super : Player
}.

Definition positionIndex (p : t) : Z := positionIndex (super p).
Definition score (p : t) : Z := score (super p).
Definition getFoundClass (p : t) : string := getFoundClass (super p).

Definition set_score (v : Z) (p : t) : t :=
  mk (id p) (isCurrentPlayer p) (set_score v (super p)).

End MultiplayerPlayer.

(** What the game does to its collaborators, in the order it does it. *)
Inductive Effect : Type :=
  | UiUpdateTarget (target : Z)
  | UiShowGameOver (players : list Room.player)
  | FoundClassAdded (cell : nat) (cls : string)
  | FoundAnimationAdded (playerId : string) (cell : nat)
  | SocketEmit (event : string) (roomCode : option string)
      (playerId : option string) (position : Z).

Record MultiplayerGame : Type := mkGame {
  players : list MultiplayerPlayer.t;
  currentTarget : Z;
  gameRunning : bool;
  buttons : list Button;          (* [this.board.getAllButtons()] *)
  socketConnected : bool;         (* [this.socket && this.socketConnected] *)
  playerId : option string;
  roomCode : option string
}.

Definition set_players (v : list MultiplayerPlayer.t) (g : MultiplayerGame)
  : MultiplayerGame :=
  mkGame v (currentTarget g) (gameRunning g) (buttons g) (socketConnected g)
         (playerId g) (roomCode g).

Definition set_currentTarget (v : Z) (g : MultiplayerGame) : MultiplayerGame :=
  mkGame (players g) v (gameRunning g) (buttons g) (socketConnected g)
         (playerId g) (roomCode g).

Definition set_gameRunning (v : bool) (g : MultiplayerGame) : MultiplayerGame :=
  mkGame (players g) (currentTarget g) v (buttons g) (socketConnected g)
         (playerId g) (roomCode g).

Definition set_buttons (v : list Button) (g : MultiplayerGame)
  : MultiplayerGame :=
  mkGame (players g) (currentTarget g) (gameRunning g) v (socketConnected g)
         (playerId g) (roomCode g).

(** A step of a method of the game: the new state and the effects. *)
Definition Step : Type := MultiplayerGame → MultiplayerGame * list Effect.

Definition andThen (f h : Step) : Step :=
  λ g, let '(g1, e1) := f g in
       let '(g2, e2) := h g1 in
       (g2, e1 ++ e2).

Infix ">>>" := andThen (at level 60, right associativity).

Section Reconciler.

(** [player.updatePosition(position, buttons)] of [MultiplayerPlayer]: the
    player and the board after the call. *)
Variable updatePosition :
  Z → list Button → MultiplayerPlayer.t → MultiplayerPlayer.t * list Button.

(** [player.addFoundAnimation(foundButton)] of [MultiplayerPlayer]: the board
    after the call on the cell [foundButton] refers to. *)
Variable addFoundAnimation :
  nat → list Button → MultiplayerPlayer.t → list Button.

(** "Update current target if it changed" *)
Definition updateTarget (room : Room.t) : Step :=
  λ g, if bool_decide (Room.currentTarget room ≠ currentTarget g)
       then (set_currentTarget (Room.currentTarget room) g,
             [UiUpdateTarget (Room.currentTarget room)])
       else (g, []).

(** The body of [room.players.forEach(serverPlayer => ...)].  The text of the
    score display is presentation and is left out. *)
Definition updatePlayer (g : MultiplayerGame) (serverPlayer : Room.player)
  : MultiplayerGame :=
  match list_find (λ p, MultiplayerPlayer.id p = Room.id serverPlayer)
                  (players g) with
  | None => g
  | Some (i, player) =>
      let '(player, bs) :=
        if bool_decide (MultiplayerPlayer.positionIndex player
                        ≠ Room.position serverPlayer)
        then updatePosition (Room.position serverPlayer) (buttons g) player
        else (player, buttons g) in
      let player :=
        if bool_decide (MultiplayerPlayer.score player ≠ Room.score serverPlayer)
        then MultiplayerPlayer.set_score (Room.score serverPlayer) player
        else player in
      set_buttons bs (set_players (<[i := player]> (players g)) g)
  end.

(** "Update player positions and scores" *)
Definition updatePlayers (room : Room.t) : Step :=
  λ g, (foldl updatePlayer g (Room.players room), []).

(** "Handle target found in the last move" *)
Definition handleTargetFound (lastMove : option LastMove.t) : Step :=
  λ g,
  match lastMove with
  | None => (g, [])
  | Some lm =>
      if LastMove.targetFound lm && bool_decide (LastMove.type lm = "confirm")
      then
        match list_find (λ p, MultiplayerPlayer.id p = LastMove.playerId lm)
                        (players g) with
        | None => (g, [])
        | Some (_, player) =>
            match list_find (λ btn, innerHTML btn = currentTarget g - 1)
                            (buttons g) with
            | None => (g, [])
            | Some (foundButton, _) =>
                let cls := MultiplayerPlayer.getFoundClass player in
                let bs := alter (classList_add cls) foundButton (buttons g) in
                if bool_decide (MultiplayerPlayer.id player = LastMove.playerId lm)
                then (set_buttons (addFoundAnimation foundButton bs player) g,
                      [FoundClassAdded foundButton cls;
                       FoundAnimationAdded (MultiplayerPlayer.id player)
                                           foundButton])
                else (set_buttons bs g, [FoundClassAdded foundButton cls])
            end
        end
      else (g, [])
  end.

(** "Check if the game is over (target reached 100)" *)
Definition checkTargetExhausted (room : Room.t) : Step :=
  λ g, if 100 <? Room.currentTarget room
       then (set_gameRunning false g, [UiShowGameOver (Room.players room)])
       else (g, []).

(** "Check if any player has a score higher than 50" *)
Definition checkHighScore (room : Room.t) : Step :=
  λ g,
  match list_find (λ player, 50 < Room.score player) (Room.players room) with
  | Some _ =>
      if gameRunning g
      then (set_gameRunning false g, [UiShowGameOver (Room.players room)])
      else (g, [])
  | None => (g, [])
  end.

(** [updateGameState(room, lastMove)] *)
Definition updateGameState (room : Room.t) (lastMove : option LastMove.t)
  : Step :=
  updateTarget room >>> updatePlayers room >>> handleTargetFound lastMove
  >>> checkTargetExhausted room >>> checkHighScore room.

(** A sequence of [game_update] events, handled one after the other. *)
Definition updateGameStates (updates : list (Room.t * option LastMove.t))
  : Step :=
  foldr (λ u rest, updateGameState u.1 u.2 >>> rest) (λ g, (g, [])) updates.

End Reconciler.

(** [movePlayer(direction)]: the local preview of the move of the current
    player, then the [player_move] message.  The current player is the entry
    of [players] whose identifier is [playerId]; the preview is [Player.move]
    on the buttons of the board. *)
Definition movePlayer (direction : Z) : Step :=
  λ g,
  match list_find (λ p, Some (MultiplayerPlayer.id p) = playerId g)
                  (players g) with
  | None => (g, [])
  | Some (i, player) =>
      let '(super, bs, _) :=
        move direction (Some (buttons g)) (MultiplayerPlayer.super player) in
      let player :=
        MultiplayerPlayer.mk (MultiplayerPlayer.id player)
          (MultiplayerPlayer.isCurrentPlayer player) super in
      let g' :=
        set_buttons (default (buttons g) bs)
                    (set_players (<[i := player]> (players g)) g) in
      if socketConnected g
      then (g', [SocketEmit "player_move" (roomCode g) (playerId g)
                            (MultiplayerPlayer.positionIndex player)])
      else (g', [])
  end.

(** ** Sample data *)

(** A board of 100 cells labelled 1 to 100 in order, without markers. *)
Definition board100 : list Button :=
  (λ n, mkButton n []) <$> seqZ 1 100.

(** Player [i] of a local game, fresh from the constructor, put on [start]. *)
Definition freshPlayer (i : Z) (start : Z) : Player :=
  constructor (mkConfig None i None None (Some start)).

(** ** Observations used in the statements *)

(** The markers of a cell that [checkTarget] reads and writes. *)
Definition foundBy (p : Player) (b : Button) : bool :=
  classList_contains (getFoundClass p) b.

Definition stolenBy (i : Z) (b : Button) : bool :=
  classList_contains ("stolen" +:+ pretty i) b.

(** The game-over signals among the effects. *)
Definition gameOverSignals (effects : list Effect) : list (list Room.player) :=
  omap (λ e, match e with UiShowGameOver ps => Some ps | _ => None end) effects.

(** The found marker and the found animation among the effects. *)
Definition isFoundEffect (e : Effect) : bool :=
  match e with
  | FoundClassAdded _ _ | FoundAnimationAdded _ _ => true
  | _ => false
  end.

Definition foundEffects (effects : list Effect) : list Effect :=
  filter (λ e, isFoundEffect e = true) effects.

(** [lastMove && lastMove.targetFound && lastMove.type === 'confirm'] *)
Definition confirmedFind (lastMove : option LastMove.t) : bool :=
  match lastMove with
  | Some lm =>
      LastMove.targetFound lm && bool_decide (LastMove.type lm = "confirm")
  | None => false
  end.

(** Some player of the snapshot has a score above 50. *)
Definition highScore (room : Room.t) : Prop :=
  ∃ sp, sp ∈ Room.players room ∧ 50 < Room.score sp.

(** Modelled from the spec: [MultiplayerPlayer.updatePosition] of
    [src/multiplayer/player.js], which is not among the sources.  "If server
    position differs from local, correct it (server wins)", with the
    presentation side effect of a move, "toggle a current position marker from
    old to new cell".  Used for sample runs only. *)
Definition updatePosition_model (position : Z) (bs : list Button)
  (p : MultiplayerPlayer.t) : MultiplayerPlayer.t * list Button :=
  let cls := getPositionClass (MultiplayerPlayer.super p) in
  (MultiplayerPlayer.mk (MultiplayerPlayer.id p)
     (MultiplayerPlayer.isCurrentPlayer p)
     (set_positionIndex position (MultiplayerPlayer.super p)),
   update (classList_add cls) (clearPreviousPosition cls bs).1 (position - 1)).

(** Modelled from the spec: [MultiplayerPlayer.addFoundAnimation] of
    [src/multiplayer/player.js], which is not among the sources.  The
    "found-animation side effect" is presentation; the marker classes of the
    board stay as they are.  Used for sample runs only. *)
Definition addFoundAnimation_model (cell : nat) (bs : list Button)
  (p : MultiplayerPlayer.t) : list Button := bs.

(** A client in a running game of one known player, "a", on the board of 100
    cells, the target still 1. *)
Definition sampleGame : MultiplayerGame :=
  mkGame [MultiplayerPlayer.mk "a" true (freshPlayer 1 1)] 1 true board100
         true (Some "a") (Some "ROOM").

(** The snapshot after "a" confirmed the target 1. *)
Definition sampleRoom : Room.t :=
  Room.mk [Room.mkPlayer "a" "Player 1" 1 1] 2.

Definition sampleConfirm : option LastMove.t :=
  Some (LastMove.mk "confirm" true "a").

Definition sampleMove : option LastMove.t :=
  Some (LastMove.mk "move" false "a").

(** ** More of [src/multiplayer/main.js]: keys and confirmation *)

(** [this.currentPlayer], set by [startMultiplayerGame] to
    [this.players.find(p => p.id === this.playerId)]: a reference to that
    entry of [players], given here with its index. *)
Definition currentPlayer (g : MultiplayerGame)
  : option (nat * MultiplayerPlayer.t) :=
  list_find (λ p, Some (MultiplayerPlayer.id p) = playerId g) (players g).

(** [confirmSelection()].  The value of the button is read for the log only;
    the state is left as it is and the confirmation goes to the server. *)
Definition confirmSelection : Step :=
  λ g,
  match currentPlayer g with
  | None => (g, [])
  | Some (_, player) =>
      let buttonIndex := MultiplayerPlayer.positionIndex player - 1 in
      if (buttonIndex <? 0) || (Z.of_nat (length (buttons g)) <=? buttonIndex)
      then (g, [])
      else
        match item (buttons g) buttonIndex with
        | None => (g, [])
        | Some currentButton =>
            if socketConnected g
            then (g, [SocketEmit "player_confirm" (roomCode g) (playerId g)
                                 (MultiplayerPlayer.positionIndex player)])
            else (g, [])
        end
  end.

(** The [keydown] listener of [bindKeyListeners], on [event.code]. *)
Definition handleKeyDown (key : string) : Step :=
  λ g,
  if negb (gameRunning g) then (g, [])
  else
    match currentPlayer g with
    | None => (g, [])
    | Some (_, player) =>
        let controls := controls (MultiplayerPlayer.super player) in
        if bool_decide (key = Controls.up controls) then movePlayer (-10) g
        else if bool_decide (key = Controls.right controls) then movePlayer 1 g
        else if bool_decide (key = Controls.down controls) then movePlayer 10 g
        else if bool_decide (key = Controls.left controls)
             then movePlayer (-1) g
        else if bool_decide (key = Controls.confirm controls)
             then confirmSelection g
        else (g, [])
    end.

(** The [UiUpdateTarget] calls among the effects. *)
Definition targetUpdates (effects : list Effect) : list Z :=
  omap (λ e, match e with UiUpdateTarget t => Some t | _ => None end) effects.

(** The messages to the server among the effects. *)
Definition isEmit (e : Effect) : bool :=
  match e with SocketEmit _ _ _ _ => true | _ => false end.

(** The positions a player reaches by following [directions] from [start]
    with the rule of [move]. *)
Definition walk (start : Z) (directions : list Z) : Z :=
  foldl nextPosition start directions.

(** A board of two cells, the second found by player 2. *)
Definition smallBoard : list Button :=
  [mkButton 6 ["position-of-player1"]; mkButton 4 ["founded-by-player2"]].

(** ** Properties of [Player.move] *)

Lemma clearPreviousPosition_length cls bs :
  length (clearPreviousPosition cls bs).1 = length bs.
Proof.
  induction bs as [|b bs IH]; simpl; [done|].
  destruct (clearPreviousPosition cls bs) as [rest found]; simpl in *.
  destruct (classList_contains cls b); simpl; congruence.
Qed.

Lemma update_length f bs i : length (update f bs i) = length bs.
Proof. unfold update. destruct (i <? 0); [done|]. apply length_alter. Qed.

Lemma keepInBounds_range pos : 1 ≤ keepInBounds pos ≤ 100.
Proof.
  unfold keepInBounds.
  destruct (pos <? 1) eqn:H1; [simpl; lia|].
  destruct (100 <? pos) eqn:H2; lia.
Qed.

Lemma nextPosition_range pos d : 1 ≤ nextPosition pos d ≤ 100.
Proof. apply keepInBounds_range. Qed.

(** On a board that has buttons, [move] returns [nextPosition] of the current
    position, stores it, and the board keeps its size. *)
Lemma move_on_board d b bs p :
  ∃ p' bs',
    move d (Some (b :: bs)) p
      = (p', Some bs', nextPosition (positionIndex p) d)
    ∧ positionIndex p' = nextPosition (positionIndex p) d
    ∧ length bs' = length (b :: bs).
Proof.
  unfold move.
  pose proof (clearPreviousPosition_length (getPositionClass p) (b :: bs)) as Hlen.
  destruct (clearPreviousPosition (getPositionClass p) (b :: bs))
    as [bs1 found] eqn:Hclear.
  simpl in Hlen.
  assert (Hpos : positionIndex
            (if found then set_moveCount (moveCount p + 1) p else p)
            = positionIndex p) by (by destruct found).
  rewrite Hpos.
  eexists _, _. split; [reflexivity|]. split; [done|].
  destruct (item bs1 _); [rewrite update_length|]; simpl; lia.
Qed.

Lemma move_off_board d bs p :
  bs = None ∨ bs = Some [] → move d bs p = (p, bs, positionIndex p).
Proof. by intros [-> | ->]. Qed.

(** Whatever the board, the position [move] returns is the one it stores. *)
Lemma move_returns_stored d bs p :
  (move d bs p).2 = positionIndex (move d bs p).1.1.
Proof.
  destruct bs as [[|b bs]|]; [done| |done].
  destruct (move_on_board d b bs p) as (p' & bs' & -> & Hp & _). by simpl.
Qed.

(** The arithmetic of the wrap, case by case. *)
Lemma nextPosition_up_row1 pos :
  2 ≤ pos ≤ 10 → nextPosition pos (-10) = pos + 89.
Proof.
  intros H. unfold nextPosition, adjustBoundaries, keepInBounds.
  repeat (case_match; try lia).
Qed.

Lemma nextPosition_down_row10 pos :
  92 ≤ pos ≤ 99 → nextPosition pos 10 = pos - 89.
Proof.
  intros H. unfold nextPosition, adjustBoundaries, keepInBounds.
  repeat (case_match; try lia).
Qed.

Lemma nextPosition_down_corners pos :
  pos = 91 ∨ pos = 100 → nextPosition pos 10 = 1.
Proof. by intros [-> | ->]. Qed.

Lemma nextPosition_right pos :
  1 ≤ pos ≤ 99 → nextPosition pos 1 = pos + 1.
Proof.
  intros H. unfold nextPosition, adjustBoundaries, keepInBounds.
  repeat (case_match; try lia).
Qed.

Lemma nextPosition_left pos :
  2 ≤ pos ≤ 100 → nextPosition pos (-1) = pos - 1.
Proof.
  intros H. unfold nextPosition, adjustBoundaries, keepInBounds.
  repeat (case_match; try lia).
Qed.

(** C1, as stated, fails: from position 2 a step up lands on 91, the first
    column of row 10, where the claim has 92; from position 95 a step down
    lands on 6, where the claim has 5. *)
Lemma move_row_wrap_shifts_column :
  (1 ≤ positionIndex (freshPlayer 1 2) ≤ 10
   ∧ (move (-10) (Some board100) (freshPlayer 1 2)).2 = 91
   ∧ 91 ≠ positionIndex (freshPlayer 1 2) + 90)
  ∧ (91 ≤ positionIndex (freshPlayer 1 95) ≤ 100
     ∧ (move 10 (Some board100) (freshPlayer 1 95)).2 = 6
     ∧ 6 ≠ positionIndex (freshPlayer 1 95) - 90).
Proof. vm_compute. intuition congruence. Qed.

(** C1, amended: on a board that has buttons, a step up from a position [p] of
    row 1 other than the corner 1 yields [p + 89], the cell of row 10 one
    column to the left; a step down from a position [p] of row 10 strictly
    between the corners yields [p - 89], the cell of row 1 one column to the
    right; a step down from either corner of row 10, 91 or 100, yields 1. *)
Theorem move_row_wrap (p : Player) (b : Button) (bs : list Button) :
  (2 ≤ positionIndex p ≤ 10 →
   (move (-10) (Some (b :: bs)) p).2 = positionIndex p + 89)
  ∧ (92 ≤ positionIndex p ≤ 99 →
     (move 10 (Some (b :: bs)) p).2 = positionIndex p - 89)
  ∧ (positionIndex p = 91 ∨ positionIndex p = 100 →
     (move 10 (Some (b :: bs)) p).2 = 1).
Proof.
  split; [|split]; intros H.
  - destruct (move_on_board (-10) b bs p) as (p' & bs' & -> & _).
    by apply nextPosition_up_row1.
  - destruct (move_on_board 10 b bs p) as (p' & bs' & -> & _).
    by apply nextPosition_down_row10.
  - destruct (move_on_board 10 b bs p) as (p' & bs' & -> & _).
    by apply nextPosition_down_corners.
Qed.

Lemma move_row_wrap_witness :
  (move (-10) (Some board100) (freshPlayer 1 7)).2 = 96
  ∧ (move 10 (Some board100) (freshPlayer 1 93)).2 = 4
  ∧ (move 10 (Some board100) (freshPlayer 1 100)).2 = 1.
Proof.
  split; [|split].
  - apply (move_row_wrap (freshPlayer 1 7) (mkButton 1 []) (tail board100)).
    vm_compute. intuition congruence.
  - apply (move_row_wrap (freshPlayer 1 93) (mkButton 1 []) (tail board100)).
    vm_compute. intuition congruence.
  - apply (move_row_wrap (freshPlayer 1 100) (mkButton 1 []) (tail board100)).
    right. reflexivity.
Defined.

Lemma moves_stay_on_board ds bs p :
  1 ≤ positionIndex p ≤ 100 → 1 ≤ positionIndex (moves ds bs p).1 ≤ 100.
Proof.
  revert bs p. induction ds as [|d ds IH]; intros bs p Hp; [done|].
  simpl. destruct (move d bs p) as [[p' bs'] r] eqn:Hmove.
  apply IH.
  destruct bs as [[|b bs]|].
  - rewrite move_off_board in Hmove by auto. by inversion Hmove; subst.
  - destruct (move_on_board d b bs p) as (p1 & bs1 & Heq & Hpos & _).
    rewrite Heq in Hmove. inversion Hmove; subst.
    rewrite Hpos. apply nextPosition_range.
  - rewrite move_off_board in Hmove by auto. by inversion Hmove; subst.
Qed.

(** C6: for a player whose position is in [1,100], the position [move]
    returns lies in [1,100] and is the position it stores, for every
    direction (the four directions of the game among them) and every board;
    hence no sequence of moves takes the player off the board. *)
Theorem move_stays_on_board (p : Player) (bs : option (list Button)) :
  1 ≤ positionIndex p ≤ 100 →
  (∀ d : Z,
     1 ≤ (move d bs p).2 ≤ 100
     ∧ positionIndex (move d bs p).1.1 = (move d bs p).2)
  ∧ (∀ ds : list Z, 1 ≤ positionIndex (moves ds bs p).1 ≤ 100).
Proof.
  intros Hp. split.
  - intros d. split; [|by rewrite move_returns_stored].
    destruct bs as [[|b bs]|].
    + by rewrite move_off_board by auto.
    + destruct (move_on_board d b bs p) as (p' & bs' & -> & _).
      apply nextPosition_range.
    + by rewrite move_off_board by auto.
  - intros ds. by apply moves_stay_on_board.
Qed.

Lemma move_stays_on_board_witness :
  1 ≤ (move 10 (Some board100) (freshPlayer 2 100)).2 ≤ 100
  ∧ 1 ≤ positionIndex
          (moves [-1; -10; -10; 1; 10] (Some board100) (freshPlayer 2 1)).1
      ≤ 100.
Proof.
  split.
  - apply (move_stays_on_board (freshPlayer 2 100) (Some board100)).
    vm_compute. intuition congruence.
  - apply (move_stays_on_board (freshPlayer 2 1) (Some board100)).
    vm_compute. intuition congruence.
Defined.

(** C7: from every position from 1 to 99, the positions where neither the
    step right nor the step back left meets a wrap, [move] by +1 followed by
    [move] by -1 returns the original position and stores it. *)
Theorem move_right_then_left (p : Player) (bs : option (list Button)) :
  1 ≤ positionIndex p ≤ 99 →
  let '(p1, bs1, _) := move 1 bs p in
  let '(p2, _, r) := move (-1) bs1 p1 in
  r = positionIndex p ∧ positionIndex p2 = positionIndex p.
Proof.
  intros Hp.
  destruct bs as [[|b bs]|]; [done| |done].
  destruct (move_on_board 1 b bs p) as (p1 & bs1 & -> & Hp1 & Hlen).
  destruct bs1 as [|b1 bs1]; [done|].
  destruct (move_on_board (-1) b1 bs1 p1) as (p2 & bs2 & -> & Hp2 & _).
  rewrite Hp2, Hp1, nextPosition_right by lia.
  rewrite nextPosition_left by lia. lia.
Qed.

Lemma move_right_then_left_witness :
  (move (-1) (move 1 (Some board100) (freshPlayer 1 10)).1.2
        (move 1 (Some board100) (freshPlayer 1 10)).1.1).2 = 10.
Proof.
  pose proof (move_right_then_left (freshPlayer 1 10) (Some board100)) as H.
  destruct (move 1 (Some board100) (freshPlayer 1 10)) as [[p1 bs1] r1].
  simpl.
  destruct (move (-1) bs1 p1) as [[p2 bs2] r].
  apply H. vm_compute. intuition congruence.
Defined.

(** C10: with [buttons] undefined or empty, [move] returns the current
    position and leaves the player, every field of it, as it was. *)
Theorem move_without_board (p : Player) (d : Z) :
  move d None p = (p, None, positionIndex p)
  ∧ move d (Some []) p = (p, Some [], positionIndex p).
Proof. split; reflexivity. Qed.

(** ** Properties of [Player.checkTarget] *)

Lemma contains_add_same c cl : contains c (add c cl) = true.
Proof.
  unfold add. destruct (contains c cl) eqn:H; [done|].
  unfold contains. apply bool_decide_eq_true.
  apply elem_of_app. right. by apply list_elem_of_singleton.
Qed.

Lemma contains_remove_same c cl : contains c (remove c cl) = false.
Proof.
  unfold contains, remove. apply bool_decide_eq_false.
  rewrite list_elem_of_filter. tauto.
Qed.

Lemma contains_add_other c c' cl :
  c ≠ c' → contains c (add c' cl) = contains c cl.
Proof.
  intros Hne. unfold add. destruct (contains c' cl); [done|].
  unfold contains. apply bool_decide_ext.
  rewrite elem_of_app, list_elem_of_singleton. tauto.
Qed.

Lemma item_update f bs i b :
  item bs i = Some b → item (update f bs i) i = Some (f b).
Proof.
  unfold item, update. destruct (i <? 0); [done|].
  intros H. by rewrite list_lookup_alter_eq, H.
Qed.

Lemma found_is_not_stolen (p : Player) (i : Z) :
  "stolen" +:+ pretty i ≠ getFoundClass p.
Proof. unfold getFoundClass. intros H. discriminate H. Qed.

(** The cell after a recovery: found by the player, its stolen marker gone. *)
Lemma recovered_cell (p : Player) (i : Z) bs pos b :
  item bs pos = Some b →
  ∃ b', item (update (classList_add (getFoundClass p))
                (update (classList_remove ("stolen" +:+ pretty i)) bs pos) pos)
             pos = Some b'
        ∧ foundBy p b' = true ∧ stolenBy i b' = false
        ∧ innerHTML b' = innerHTML b.
Proof.
  intros Hb. eexists. split.
  - apply item_update, item_update, Hb.
  - unfold foundBy, stolenBy, classList_contains, classList_add,
      classList_remove; simpl.
    split; [apply contains_add_same|]. split; [|done].
    rewrite contains_add_other by apply found_is_not_stolen.
    apply contains_remove_same.
Qed.

(** The branches of [checkTarget] in the order the code takes them, on any
    cell [b] at [position]: the label first, then the stolen marker of the
    player's own index, then the stolen marker of the opponent's index. *)
Lemma checkTarget_branches (p : Player) (position target : Z)
  (bs : list Button) (b : Button) :
  item bs (position - 1) = Some b →
  let '(p', bs', r) := checkTarget position bs target p in
  (r = ResultBool true ↔ innerHTML b = target)
  ∧ (innerHTML b ≠ target → stolenBy (index p) b = true →
     r = ResultString "stolen-recovered"
     ∧ p' = set_powerCounter 0 (set_stolen (stolen p + 1) p)
     ∧ ∃ b', item bs' (position - 1) = Some b'
             ∧ foundBy p b' = true ∧ stolenBy (index p) b' = false
             ∧ innerHTML b' = innerHTML b)
  ∧ (innerHTML b ≠ target → stolenBy (index p) b = false →
     stolenBy (otherPlayerIndex p) b = true →
     r = ResultString "saved"
     ∧ p' = set_powerCounter 0 (set_saves (saves p + 1) p)
     ∧ ∃ b', item bs' (position - 1) = Some b'
             ∧ foundBy p b' = true ∧ stolenBy (otherPlayerIndex p) b' = false
             ∧ innerHTML b' = innerHTML b)
  ∧ (innerHTML b ≠ target → stolenBy (index p) b = false →
     stolenBy (otherPlayerIndex p) b = false →
     r = ResultBool false ∧ p' = p ∧ bs' = bs).
Proof.
  intros Hb. unfold checkTarget. rewrite Hb.
  fold (stolenBy (index p) b). fold (stolenBy (otherPlayerIndex p) b).
  destruct (innerHTML b =? target) eqn:Hlabel.
  { apply Z.eqb_eq in Hlabel. repeat split; intros; try done. }
  apply Z.eqb_neq in Hlabel.
  destruct (stolenBy (index p) b) eqn:Hself.
  { split; [split; [done | intros; done]|].
    split; [|split; intros; done].
    intros _ _. repeat split. by apply recovered_cell. }
  destruct (stolenBy (otherPlayerIndex p) b) eqn:Hother.
  { split; [split; [done | intros; done]|].
    split; [intros; done|]. split; [|intros; done].
    intros _ _ _. repeat split. by apply recovered_cell. }
  split; [split; [done | intros; done]|].
  repeat split; intros; done.
Qed.

(** C2: on a cell that carries at most one of the two stolen markers, as the
    cells of the game do, [checkTarget] reports the target found, returning
    [true], if and only if the label of the cell equals the target;
    otherwise, if the cell is marked stolen by the opponent, it is recovered
    as found by the player, [saves] is incremented and [powerCounter] is
    reset to 0; otherwise, if the cell is marked stolen by the player, it is
    recovered as found by the player, [stolen] is incremented and
    [powerCounter] is reset to 0; otherwise neither the player, with its
    counters, nor the board, with its markers, changes. *)
Theorem checkTarget_confirm_branches (p : Player) (position target : Z)
  (bs : list Button) (b : Button) :
  item bs (position - 1) = Some b →
  stolenBy (index p) b && stolenBy (otherPlayerIndex p) b = false →
  let '(p', bs', r) := checkTarget position bs target p in
  (r = ResultBool true ↔ innerHTML b = target)
  ∧ (innerHTML b ≠ target → stolenBy (otherPlayerIndex p) b = true →
     r = ResultString "saved"
     ∧ p' = set_powerCounter 0 (set_saves (saves p + 1) p)
     ∧ ∃ b', item bs' (position - 1) = Some b'
             ∧ foundBy p b' = true ∧ stolenBy (otherPlayerIndex p) b' = false
             ∧ innerHTML b' = innerHTML b)
  ∧ (innerHTML b ≠ target → stolenBy (otherPlayerIndex p) b = false →
     stolenBy (index p) b = true →
     r = ResultString "stolen-recovered"
     ∧ p' = set_powerCounter 0 (set_stolen (stolen p + 1) p)
     ∧ ∃ b', item bs' (position - 1) = Some b'
             ∧ foundBy p b' = true ∧ stolenBy (index p) b' = false
             ∧ innerHTML b' = innerHTML b)
  ∧ (innerHTML b ≠ target → stolenBy (otherPlayerIndex p) b = false →
     stolenBy (index p) b = false →
     r = ResultBool false ∧ p' = p ∧ bs' = bs).
Proof.
  intros Hb Hone.
  pose proof (checkTarget_branches p position target bs b Hb) as H.
  destruct (checkTarget position bs target p) as [[p' bs'] r].
  destruct H as (Hfound & Hself & Hother & Hnone).
  split; [done|]. split; [|split].
  - intros Hlabel Ho. apply Hother; [done| |done].
    rewrite Ho, andb_true_r in Hone. done.
  - intros Hlabel _ Hs. by apply Hself.
  - intros Hlabel Ho Hs. by apply Hnone.
Qed.

Lemma checkTarget_confirm_branches_witness :
  (checkTarget 1 [mkButton 7 ["stolen2"]] 3 (freshPlayer 1 1)).2
  = ResultString "saved"
  ∧ saves (checkTarget 1 [mkButton 7 ["stolen2"]] 3 (freshPlayer 1 1)).1.1 = 1
  ∧ powerCounter
      (checkTarget 1 [mkButton 7 ["stolen2"]] 3 (freshPlayer 1 1)).1.1 = 0.
Proof.
  pose proof (checkTarget_confirm_branches (freshPlayer 1 1) 1 3
                [mkButton 7 ["stolen2"]] (mkButton 7 ["stolen2"])
                eq_refl eq_refl) as H.
  destruct (checkTarget 1 [mkButton 7 ["stolen2"]] 3 (freshPlayer 1 1))
    as [[p' bs'] r].
  destruct H as (_ & Hsaved & _).
  destruct Hsaved as (-> & -> & _); [vm_compute; congruence | done |].
  by vm_compute.
Defined.

(** Where there is no cell at [position], [checkTarget] returns [false] and
    changes nothing. *)
Lemma checkTarget_no_cell p position target bs :
  item bs (position - 1) = None →
  checkTarget position bs target p = (p, bs, ResultBool false).
Proof. intros H. unfold checkTarget. by rewrite H. Qed.

(** ** Properties of [Player.incrementPower] *)

(** C8: when [incrementPower] raises the acting player's counter to 3 and the
    opponent has no found cell, the call returns [false], the board, and with
    it the opponent's found cells, is unchanged, the opponent changes in its
    counter alone, reset to 0, and the acting player in its counter, now 3,
    and its power, incremented. *)
Theorem incrementPower_no_steal (p opponent : Player) (random : nat)
  (board : list Button) :
  powerCounter p = 2 →
  let '(p', opponent', board', stole) :=
    incrementPower opponent [] random board p in
  stole = false
  ∧ board' = board
  ∧ opponent' = set_powerCounter 0 opponent
  ∧ p' = set_power (power p + 1) (set_powerCounter 3 p).
Proof.
  intros Hc. unfold incrementPower. simpl. rewrite Hc. simpl.
  repeat split.
Qed.

Lemma incrementPower_no_steal_witness :
  let two := set_powerCounter 2 (freshPlayer 1 1) in
  let cell := mkButton 4 ["founded-by-player2"] in
  let '(p', opponent', board', stole) :=
    incrementPower (freshPlayer 2 1) [] 0 [cell] two in
  stole = false ∧ board' = [cell] ∧ powerCounter p' = 3 ∧ power p' = 1.
Proof.
  pose proof (incrementPower_no_steal (set_powerCounter 2 (freshPlayer 1 1))
                (freshPlayer 2 1) 0 [mkButton 4 ["founded-by-player2"]]
                eq_refl) as H.
  simpl.
  destruct (incrementPower _ _ _ _ _) as [[[p' opponent'] board'] stole].
  destruct H as (-> & -> & _ & ->). by vm_compute.
Defined.

(** What the two operations do to the counters. *)
Lemma incrementPower_counters opponent found random board p :
  let '(p', opponent', _, _) := incrementPower opponent found random board p in
  powerCounter p' = powerCounter p + 1 ∧ powerCounter opponent' = 0.
Proof.
  unfold incrementPower. simpl.
  destruct (powerCounter p + 1 =? 3); [|done].
  by destruct (0 <? length found)%nat.
Qed.

Lemma checkTarget_counter position bs target p :
  let '(p', _, _) := checkTarget position bs target p in
  powerCounter p' = powerCounter p ∨ powerCounter p' = 0.
Proof.
  unfold checkTarget.
  destruct (item bs (position - 1)) as [button|]; [|by left].
  destruct (innerHTML button =? target); [by left|].
  destruct (classList_contains _ button); [by right|].
  destruct (classList_contains _ button); [by right | by left].
Qed.

Lemma applyOp_counters t op :
  0 ≤ powerCounter (player1 t) → 0 ≤ powerCounter (player2 t) →
  0 ≤ powerCounter (player1 (applyOp t op))
  ∧ 0 ≤ powerCounter (player2 (applyOp t op)).
Proof.
  intros H1 H2. destruct op as [[] found random | [] position target]; simpl.
  - pose proof (incrementPower_counters (player2 t) found random (board t)
                  (player1 t)) as H.
    destruct (incrementPower _ _ _ _ _) as [[[p o] b] r]. simpl. lia.
  - pose proof (incrementPower_counters (player1 t) found random (board t)
                  (player2 t)) as H.
    destruct (incrementPower _ _ _ _ _) as [[[p o] b] r]. simpl. lia.
  - pose proof (checkTarget_counter position (board t) target (player1 t)) as H.
    destruct (checkTarget _ _ _ _) as [[p b] r]. simpl. lia.
  - pose proof (checkTarget_counter position (board t) target (player2 t)) as H.
    destruct (checkTarget _ _ _ _) as [[p b] r]. simpl. lia.
Qed.

(** C9, as stated, fails: three calls of [incrementPower] by player 1 on a
    fresh pair of players leave the counter of player 1 at 3, outside
    [0,3). *)
Lemma powerCounter_reaches_three :
  let t := mkTable (freshPlayer 1 1) (freshPlayer 2 100) board100 in
  let ops := [OpIncrementPower true [] 0; OpIncrementPower true [] 0;
              OpIncrementPower true [] 0] in
  powerCounter (player1 t) = 0
  ∧ powerCounter (player1 (applyOps t ops)) = 3
  ∧ ¬ (0 ≤ powerCounter (player1 (applyOps t ops)) < 3).
Proof. vm_compute. intuition congruence. Qed.

(** C9, amended: starting from the initial value 0 of the constructor,
    [powerCounter] of either player is never negative after any sequence of
    [incrementPower] and [checkTarget]; it has no upper bound of 3. *)
Theorem powerCounter_never_negative (c1 c2 : Config) (b : list Button)
  (ops : list PowerOp) :
  0 ≤ powerCounter
        (player1 (applyOps (mkTable (constructor c1) (constructor c2) b) ops))
  ∧ 0 ≤ powerCounter
          (player2 (applyOps (mkTable (constructor c1) (constructor c2) b) ops)).
Proof.
  unfold applyOps.
  assert (Hgen : ∀ t, 0 ≤ powerCounter (player1 t) →
                      0 ≤ powerCounter (player2 t) →
                      0 ≤ powerCounter (player1 (foldl applyOp t ops))
                      ∧ 0 ≤ powerCounter (player2 (foldl applyOp t ops))).
  { induction ops as [|op ops IH]; intros t H1 H2; simpl; [done|].
    destruct (applyOp_counters t op H1 H2). by apply IH. }
  by apply Hgen.
Qed.

(** ** Properties of [MultiplayerGame.updateGameState] *)

Section ReconcilerProperties.

Variable updatePosition :
  Z → list Button → MultiplayerPlayer.t → MultiplayerPlayer.t * list Button.
Variable addFoundAnimation :
  nat → list Button → MultiplayerPlayer.t → list Button.

Local Abbreviation updateGameState := (updateGameState updatePosition addFoundAnimation).
Local Abbreviation updatePlayers := (updatePlayers updatePosition).
Local Abbreviation updatePlayer := (updatePlayer updatePosition).
Local Abbreviation handleTargetFound := (handleTargetFound addFoundAnimation).

Lemma updateTarget_running room g :
  gameRunning (updateTarget room g).1 = gameRunning g.
Proof. unfold updateTarget. by case_bool_decide. Qed.

Lemma updatePlayer_running g sp :
  gameRunning (updatePlayer g sp) = gameRunning g.
Proof.
  unfold updatePlayer.
  destruct (list_find _ (players g)) as [[i player]|]; [|done].
  by destruct (if bool_decide _ then _ else _) as [player' bs].
Qed.

Lemma updatePlayers_running room g :
  gameRunning (updatePlayers room g).1 = gameRunning g.
Proof.
  unfold updatePlayers. simpl. revert g.
  induction (Room.players room) as [|sp sps IH]; intros g; simpl; [done|].
  by rewrite IH, updatePlayer_running.
Qed.

Lemma handleTargetFound_running lastMove g :
  gameRunning (handleTargetFound lastMove g).1 = gameRunning g.
Proof.
  unfold handleTargetFound. repeat case_match; done.
Qed.

(** No found effect without a confirmed find. *)
Lemma handleTargetFound_gated lastMove g :
  confirmedFind lastMove = false → handleTargetFound lastMove g = (g, []).
Proof.
  unfold handleTargetFound, confirmedFind.
  destruct lastMove as [lm|]; [|done]. by intros ->.
Qed.

Lemma handleTargetFound_effects lastMove g :
  gameOverSignals (handleTargetFound lastMove g).2 = []
  ∧ foundEffects (handleTargetFound lastMove g).2
    = (handleTargetFound lastMove g).2.
Proof.
  unfold handleTargetFound. repeat case_match; done.
Qed.

Lemma highScore_find room :
  highScore room ↔
  is_Some (list_find (λ player, 50 < Room.score player) (Room.players room)).
Proof.
  split.
  - intros (sp & Hin & Hsp).
    destruct (list_find _ (Room.players room)) eqn:Hfind; [done|].
    apply list_find_None in Hfind.
    rewrite Forall_forall in Hfind. by apply Hfind in Hin.
  - intros [[i sp] Hfind]. apply list_find_Some in Hfind as (Hi & Hsp & _).
    exists sp. split; [|done]. by eapply list_elem_of_lookup_2.
Qed.

(** The effects of [updateGameState], phase by phase. *)
Lemma updateGameState_unfold room lastMove g :
  ∃ g1 e1 g2 e2 g3 e3,
    (g1, e1) = handleTargetFound lastMove
                 (updatePlayers room (updateTarget room g).1).1
    ∧ gameRunning g1 = gameRunning g
    ∧ (g2, e2) = checkTargetExhausted room g1
    ∧ (g3, e3) = checkHighScore room g2
    ∧ updateGameState room lastMove g
      = (g3, (updateTarget room g).2 ++ e1 ++ e2 ++ e3).
Proof.
  unfold updateGameState, andThen.
  pose proof (updateTarget_running room g) as Ht.
  destruct (updateTarget room g) as [g0 e0]; simpl in *.
  pose proof (updatePlayers_running room g0) as Hp.
  unfold updatePlayers in *; simpl in *.
  pose proof (handleTargetFound_running lastMove
                (foldl updatePlayer g0 (Room.players room))) as Hf.
  destruct (handleTargetFound lastMove _) as [g1 e1]; simpl in *.
  destruct (checkTargetExhausted room g1) as [g2 e2] eqn:H2.
  destruct (checkHighScore room g2) as [g3 e3] eqn:H3.
  exists g1, e1, g2, e2, g3, e3. repeat split; congruence.
Qed.

Lemma gameOverSignals_app e1 e2 :
  gameOverSignals (e1 ++ e2) = gameOverSignals e1 ++ gameOverSignals e2.
Proof. apply omap_app. Qed.

Lemma updateTarget_signals room g : gameOverSignals (updateTarget room g).2 = [].
Proof. unfold updateTarget. by case_bool_decide. Qed.

(** A running game that handles a snapshot with one of the two end
    conditions stops and signals game over once. *)
Lemma finishing_update (g : MultiplayerGame) (room : Room.t)
  (lastMove : option LastMove.t) :
  gameRunning g = true →
  100 < Room.currentTarget room ∨ highScore room →
  gameRunning (updateGameState room lastMove g).1 = false
  ∧ gameOverSignals (updateGameState room lastMove g).2 = [Room.players room].
Proof.
  intros Hrun Hend.
  destruct (updateGameState_unfold room lastMove g)
    as (g1 & e1 & g2 & e2 & g3 & e3 & H1 & Hrun1 & H2 & H3 & ->).
  simpl. rewrite !gameOverSignals_app, updateTarget_signals.
  pose proof (handleTargetFound_effects lastMove
                (updatePlayers room (updateTarget room g).1).1) as [He1 _].
  rewrite <- H1 in He1. simpl in He1. rewrite He1. simpl.
  unfold checkTargetExhausted in H2. unfold checkHighScore in H3.
  destruct (100 <? Room.currentTarget room) eqn:Htarget.
  - inversion H2; subst g2 e2. simpl in H3.
    destruct (list_find _ (Room.players room)); by inversion H3.
  - inversion H2; subst g2 e2.
    destruct Hend as [Hend | Hend]; [apply Z.ltb_ge in Htarget; lia|].
    apply highScore_find in Hend as [found Hfound]. rewrite Hfound in H3.
    rewrite Hrun1, Hrun in H3. by inversion H3.
Qed.

(** C4: in a running game, when the snapshot of a [game_update] has its
    target above 100, and likewise when some player of it has a score above
    50, [updateGameState] leaves [gameRunning] false and signals game over,
    once, with the players of the snapshot; whichever of the two conditions
    holds is enough. *)
Theorem updateGameState_finishes (g : MultiplayerGame) (room : Room.t)
  (lastMove : option LastMove.t) :
  gameRunning g = true →
  100 < Room.currentTarget room ∨ highScore room →
  let '(g', effects) := updateGameState room lastMove g in
  gameRunning g' = false
  ∧ gameOverSignals effects = [Room.players room].
Proof.
  intros Hrun Hend.
  pose proof (finishing_update g room lastMove Hrun Hend) as H.
  by destruct (updateGameState room lastMove g).
Qed.

(** Conversely, a snapshot with neither condition leaves the game as it
    runs and signals nothing. *)
Lemma updateGameState_continues (g : MultiplayerGame) (room : Room.t)
  (lastMove : option LastMove.t) :
  Room.currentTarget room ≤ 100 → ¬ highScore room →
  let '(g', effects) := updateGameState room lastMove g in
  gameRunning g' = gameRunning g ∧ gameOverSignals effects = [].
Proof.
  intros Htarget Hscore.
  destruct (updateGameState_unfold room lastMove g)
    as (g1 & e1 & g2 & e2 & g3 & e3 & H1 & Hrun1 & H2 & H3 & ->).
  rewrite !gameOverSignals_app, updateTarget_signals.
  pose proof (handleTargetFound_effects lastMove
                (updatePlayers room (updateTarget room g).1).1) as [He1 _].
  rewrite <- H1 in He1. simpl in He1. rewrite He1. simpl.
  unfold checkTargetExhausted in H2. unfold checkHighScore in H3.
  destruct (100 <? Room.currentTarget room) eqn:Hlt;
    [apply Z.ltb_lt in Hlt; lia|].
  inversion H2; subst g2 e2.
  destruct (list_find _ (Room.players room)) eqn:Hfind.
  - exfalso. apply Hscore, highScore_find. by rewrite Hfind.
  - by inversion H3.
Qed.

Lemma updateGameState_stays_finished (g : MultiplayerGame) (room : Room.t)
  (lastMove : option LastMove.t) :
  gameRunning g = false →
  gameRunning (updateGameState room lastMove g).1 = false.
Proof.
  intros Hrun.
  destruct (updateGameState_unfold room lastMove g)
    as (g1 & e1 & g2 & e2 & g3 & e3 & H1 & Hrun1 & H2 & H3 & ->).
  simpl. unfold checkTargetExhausted in H2. unfold checkHighScore in H3.
  assert (gameRunning g2 = false) as Hrun2.
  { destruct (100 <? Room.currentTarget room); inversion H2; subst; simpl;
      congruence. }
  rewrite Hrun2 in H3.
  destruct (list_find _ (Room.players room)); inversion H3; by subst.
Qed.

Lemma updateGameStates_stay_finished (g : MultiplayerGame)
  (updates : list (Room.t * option LastMove.t)) :
  gameRunning g = false →
  gameRunning
    (updateGameStates updatePosition addFoundAnimation updates g).1 = false.
Proof.
  revert g. induction updates as [|[room lastMove] updates IH]; intros g Hrun;
    [done|].
  simpl. unfold andThen.
  pose proof (updateGameState_stays_finished g room lastMove Hrun) as Hnext.
  destruct (updateGameState room lastMove g) as [g1 e1]. simpl in Hnext.
  specialize (IH g1 Hnext).
  by destruct (updateGameStates _ _ updates g1).
Qed.

(** X20: over a sequence of updates handled by a running game: the game is
    over at the end exactly when some snapshot of the sequence met one of the
    two conditions. *)
Lemma updateGameStates_finished (g : MultiplayerGame)
  (updates : list (Room.t * option LastMove.t)) :
  gameRunning g = true →
  gameRunning
    (updateGameStates updatePosition addFoundAnimation updates g).1 = false
  ↔ Exists (λ u, 100 < Room.currentTarget u.1 ∨ highScore u.1) updates.
Proof.
  revert g. induction updates as [|[room lastMove] updates IH]; intros g Hrun.
  { simpl. rewrite Hrun, Exists_nil. split; [done | tauto]. }
  rewrite Exists_cons. simpl. unfold andThen.
  destruct (updateGameState room lastMove g) as [g1 e1] eqn:Hstep.
  destruct (updateGameStates _ _ updates g1) as [g2 e2] eqn:Hrest. simpl.
  assert (Hg2 : g2 = (updateGameStates updatePosition addFoundAnimation
                        updates g1).1) by by rewrite Hrest.
  destruct (decide (100 < Room.currentTarget room)) as [Ht | Ht].
  - pose proof (finishing_update g room lastMove Hrun (or_introl Ht))
      as Hfin.
    rewrite Hstep in Hfin. destruct Hfin as [Hfin _].
    split; [auto|]. intros _. subst g2.
    by apply updateGameStates_stay_finished.
  - destruct (list_find (λ player, 50 < Room.score player)
                (Room.players room)) as [found|] eqn:Hfind.
    + assert (highScore room) as Hs
        by (apply highScore_find; by rewrite Hfind).
      pose proof (finishing_update g room lastMove Hrun (or_intror Hs))
        as Hfin.
      rewrite Hstep in Hfin. destruct Hfin as [Hfin _].
      split; [auto|]. intros _. subst g2.
      by apply updateGameStates_stay_finished.
    + assert (¬ highScore room) as Hs.
      { intros H. apply highScore_find in H. rewrite Hfind in H.
        by destruct H. }
      pose proof (updateGameState_continues g room lastMove
                    ltac:(lia) Hs) as Hcont.
      rewrite Hstep in Hcont. destruct Hcont as [Hcont _].
      rewrite Hrun in Hcont. subst g2. rewrite (IH g1 Hcont). tauto.
Qed.

Lemma foundEffects_app e1 e2 :
  foundEffects (e1 ++ e2) = foundEffects e1 ++ foundEffects e2.
Proof. apply filter_app. Qed.

Lemma updateGameState_foundEffects room lastMove g :
  foundEffects (updateGameState room lastMove g).2
  = (handleTargetFound lastMove
       (updatePlayers room (updateTarget room g).1).1).2.
Proof.
  destruct (updateGameState_unfold room lastMove g)
    as (g1 & e1 & g2 & e2 & g3 & e3 & H1 & _ & H2 & H3 & ->).
  simpl. rewrite !foundEffects_app.
  pose proof (handleTargetFound_effects lastMove
                (updatePlayers room (updateTarget room g).1).1) as [_ He1].
  rewrite <- H1 in *. simpl in *. rewrite He1.
  assert (foundEffects (updateTarget room g).2 = []) as ->.
  { unfold updateTarget. by case_bool_decide. }
  assert (foundEffects e2 = []) as ->.
  { unfold checkTargetExhausted in H2. case_match; by inversion H2. }
  assert (foundEffects e3 = []) as ->.
  { unfold checkHighScore in H3. repeat case_match; by inversion H3. }
  rewrite <- H1. simpl. by rewrite app_nil_r.
Qed.

(** C5, amended: [updateGameState] adds the found marker and the found
    animation only when the delta has type ['confirm'] and [targetFound]
    true, never for a move delta; a repeated snapshot, whose target the
    client applied already, does not add them again when its delta is not
    such a confirmed find. *)
Theorem found_effects_gated (g : MultiplayerGame) (room : Room.t)
  (lastMove : option LastMove.t) :
  (foundEffects (updateGameState room lastMove g).2 ≠ [] →
   ∃ lm, lastMove = Some lm ∧ LastMove.type lm = "confirm"
         ∧ LastMove.targetFound lm = true)
  ∧ (Room.currentTarget room = currentTarget g →
     confirmedFind lastMove = false →
     foundEffects (updateGameState room lastMove g).2 = []).
Proof.
  rewrite updateGameState_foundEffects. split.
  - intros Hne. destruct (confirmedFind lastMove) eqn:Hc.
    + unfold confirmedFind in Hc. destruct lastMove as [lm|]; [|done].
      apply andb_true_iff in Hc as [Hfound Htype].
      apply bool_decide_eq_true in Htype. by exists lm.
    + by rewrite handleTargetFound_gated in Hne.
  - intros _ Hc. by rewrite handleTargetFound_gated.
Qed.

End ReconcilerProperties.

Lemma updateGameState_finishes_witness :
  let '(g', effects) :=
    updateGameState updatePosition_model addFoundAnimation_model
      (Room.mk [Room.mkPlayer "a" "Player 1" 4 51] 52) sampleMove sampleGame in
  gameRunning g' = false
  ∧ gameOverSignals effects = [[Room.mkPlayer "a" "Player 1" 4 51]].
Proof.
  apply (updateGameState_finishes updatePosition_model addFoundAnimation_model
           sampleGame (Room.mk [Room.mkPlayer "a" "Player 1" 4 51] 52)
           sampleMove).
  - reflexivity.
  - right. exists (Room.mkPlayer "a" "Player 1" 4 51). split.
    + simpl. apply list_elem_of_here.
    + simpl. lia.
Defined.

(** C5, as stated, fails: the snapshot of a confirmed find, handled a second
    time when its target is already the client's, adds the found animation
    again. *)
Lemma repeated_confirm_animates_again :
  let '(g1, e1) :=
    updateGameState updatePosition_model addFoundAnimation_model
      sampleRoom sampleConfirm sampleGame in
  let '(g2, e2) :=
    updateGameState updatePosition_model addFoundAnimation_model
      sampleRoom sampleConfirm g1 in
  e1 = [UiUpdateTarget 2; FoundClassAdded 0 "founded-by-player1";
        FoundAnimationAdded "a" 0]
  ∧ Room.currentTarget sampleRoom = currentTarget g1
  ∧ e2 = [FoundClassAdded 0 "founded-by-player1"; FoundAnimationAdded "a" 0].
Proof. vm_compute. done. Qed.

Lemma found_effects_gated_witness :
  foundEffects
    (updateGameState updatePosition_model addFoundAnimation_model
       (Room.mk [Room.mkPlayer "a" "Player 1" 2 0] 1) sampleMove sampleGame).2
  = [].
Proof.
  apply (found_effects_gated updatePosition_model addFoundAnimation_model
           sampleGame (Room.mk [Room.mkPlayer "a" "Player 1" 2 0] 1)
           sampleMove); reflexivity.
Defined.

(** ** The [player_move] message of [MultiplayerGame.movePlayer] *)

(** X25: the message of a move carries the position the client computed
    from its own position with [Player.move]; the direction is not part of
    it. *)
Lemma movePlayer_emits_local_position (d : Z) (g : MultiplayerGame) (i : nat)
  (player : MultiplayerPlayer.t) (b : Button) (bs : list Button) :
  list_find (λ p, Some (MultiplayerPlayer.id p) = playerId g) (players g)
    = Some (i, player) →
  socketConnected g = true →
  buttons g = b :: bs →
  (movePlayer d g).2
  = [SocketEmit "player_move" (roomCode g) (playerId g)
       (nextPosition (MultiplayerPlayer.positionIndex player) d)].
Proof.
  intros Hfind Hsock Hbs. unfold movePlayer. rewrite Hfind, Hsock, Hbs.
  destruct (move_on_board d b bs (MultiplayerPlayer.super player))
    as (p' & bs' & -> & Hpos & _).
  simpl. unfold MultiplayerPlayer.positionIndex. simpl. by rewrite Hpos.
Qed.

(** Two clients at different positions, moving in different directions, send
    the same message. *)
Lemma movePlayer_message_hides_direction :
  nextPosition 1 1 = nextPosition 3 (-1).
Proof. reflexivity. Qed.

(** ** Further properties of [Player.move] *)

Lemma clearPreviousPosition_found cls bs :
  (clearPreviousPosition cls bs).2 = existsb (classList_contains cls) bs.
Proof.
  induction bs as [|b bs IH]; simpl; [done|].
  destruct (clearPreviousPosition cls bs) as [rest found]; simpl in *.
  by destruct (classList_contains cls b); simpl.
Qed.

Lemma clearPreviousPosition_clears cls bs j cell :
  (clearPreviousPosition cls bs).1 !! j = Some cell →
  classList_contains cls cell = false.
Proof.
  revert j. induction bs as [|b bs IH]; intros j; simpl; [done|].
  destruct (clearPreviousPosition cls bs) as [rest found]; simpl in *.
  destruct (classList_contains cls b) eqn:Hb; simpl;
    destruct j as [|j]; simpl; try apply IH.
  - intros [= <-]. apply contains_remove_same.
  - by intros [= <-].
Qed.

Lemma contains_remove_other c c' cl :
  c ≠ c' → contains c (remove c' cl) = contains c cl.
Proof.
  intros Hne. unfold contains, remove. apply bool_decide_ext.
  rewrite list_elem_of_filter. tauto.
Qed.

Lemma clearPreviousPosition_keeps cls bs :
  innerHTML <$> (clearPreviousPosition cls bs).1 = innerHTML <$> bs
  ∧ ∀ c, c ≠ cls →
      classList_contains c <$> (clearPreviousPosition cls bs).1
      = classList_contains c <$> bs.
Proof.
  induction bs as [|b bs [IH1 IH2]]; [done|].
  cbn [clearPreviousPosition].
  destruct (clearPreviousPosition cls bs) as [rest found].
  cbn [fst] in IH1, IH2.
  destruct (classList_contains cls b); cbn [fst]; rewrite !fmap_cons, IH1.
  - split; [done|]. intros c Hc. rewrite !fmap_cons, IH2 by done.
    f_equal. unfold classList_contains, classList_remove. simpl.
    by apply contains_remove_other.
  - split; [done|]. intros c Hc. by rewrite !fmap_cons, IH2.
Qed.

Lemma fmap_alter_same {A B} (f : A → B) (h : A → A) (l : list A) (i : nat) :
  (∀ x, f (h x) = f x) → f <$> alter h i l = f <$> l.
Proof.
  intros Hf. revert i. induction l as [|x l IH]; intros [|i]; simpl; [done..| |].
  - by rewrite Hf.
  - f_equal. apply IH.
Qed.

Lemma fmap_update_same {B} (f : Button → B) (h : Button → Button) bs i :
  (∀ x, f (h x) = f x) → f <$> update h bs i = f <$> bs.
Proof.
  intros Hf. unfold update. destruct (i <? 0); [done|].
  by apply fmap_alter_same.
Qed.

(** What [move] does on a board that has buttons, in full. *)
Lemma move_on_board_full d b bs p :
  let found := existsb (classList_contains (getPositionClass p)) (b :: bs) in
  let pos := nextPosition (positionIndex p) d in
  let bs1 := (clearPreviousPosition (getPositionClass p) (b :: bs)).1 in
  move d (Some (b :: bs)) p
  = (set_positionIndex pos
       (if found then set_moveCount (moveCount p + 1) p else p),
     Some (match item bs1 (pos - 1) with
           | Some _ => update (classList_add (getPositionClass p)) bs1 (pos - 1)
           | None => bs1
           end),
     pos).
Proof.
  unfold move.
  rewrite <- (clearPreviousPosition_found (getPositionClass p) (b :: bs)).
  destruct (clearPreviousPosition (getPositionClass p) (b :: bs))
    as [bs1 found]. simpl.
  by destruct found.
Qed.

(** X1: on a board that has buttons, [move] changes the position and the move
    counter of the player and no other field; the counter goes up by one
    exactly when some button carried the position marker of the player, and
    stays otherwise. *)
Theorem move_counts_marked_moves (d : Z) (b : Button) (bs : list Button)
  (p : Player) :
  (move d (Some (b :: bs)) p).1.1
  = set_positionIndex (nextPosition (positionIndex p) d)
      (set_moveCount
         (if existsb (classList_contains (getPositionClass p)) (b :: bs)
          then moveCount p + 1 else moveCount p) p).
Proof.
  rewrite move_on_board_full. cbv zeta. cbn [fst].
  destruct (existsb _ (b :: bs)); [done | by destruct p].
Qed.

(** X2: after [move] on a board that has buttons, the position marker of the
    player is on the cell of the returned position and on no other cell; when
    the returned position is past the end of the board, no cell carries it. *)
Theorem move_marker_unique (d : Z) (b : Button) (bs bs' : list Button)
  (p : Player) (j : nat) (cell : Button) :
  (move d (Some (b :: bs)) p).1.2 = Some bs' →
  bs' !! j = Some cell →
  classList_contains (getPositionClass p) cell = true
  ↔ Z.of_nat j = (move d (Some (b :: bs)) p).2 - 1.
Proof.
  rewrite move_on_board_full. cbv zeta. cbn [fst snd].
  pose proof (nextPosition_range (positionIndex p) d) as Hrange.
  pose proof (clearPreviousPosition_clears (getPositionClass p) (b :: bs))
    as Hclear.
  generalize dependent (clearPreviousPosition (getPositionClass p) (b :: bs)).1.
  generalize dependent (nextPosition (positionIndex p) d).
  intros pos Hrange bs1 Hclear Hbs' Hcell.
  injection Hbs' as <-.
  unfold item, update in Hcell.
  destruct (pos - 1 <? 0) eqn:Hneg; [apply Z.ltb_lt in Hneg; lia|].
  destruct (bs1 !! Z.to_nat (pos - 1)) as [c|] eqn:Hc.
  - destruct (decide (j = Z.to_nat (pos - 1))) as [-> | Hj].
    + rewrite list_lookup_alter_eq, Hc in Hcell. injection Hcell as <-.
      unfold classList_contains, classList_add. simpl.
      rewrite contains_add_same. split; [lia | done].
    + rewrite list_lookup_alter_ne in Hcell by done.
      rewrite (Hclear _ _ Hcell). split; [done | lia].
  - rewrite (Hclear _ _ Hcell). split; [done|].
    intros Hj. assert (j = Z.to_nat (pos - 1)) as -> by lia. congruence.
Qed.

Lemma move_marker_unique_witness :
  classList_contains "position-of-player1" (mkButton 4 ["founded-by-player2"])
  = true
  ↔ Z.of_nat 1 = (move (-1) (Some smallBoard) (freshPlayer 1 1)).2 - 1.
Proof.
  apply (move_marker_unique (-1) (mkButton 6 ["position-of-player1"])
           [mkButton 4 ["founded-by-player2"]]
           [mkButton 6 []; mkButton 4 ["founded-by-player2"]]
           (freshPlayer 1 1) 1 (mkButton 4 ["founded-by-player2"]));
    reflexivity.
Defined.

(** X3: [move] keeps the labels of the board and, on every cell, every class
    other than the position marker of the moving player: the markers of the
    other players and the found and stolen markers stay. *)
Theorem move_keeps_other_markers (d : Z) (b : Button) (bs bs' : list Button)
  (p : Player) :
  (move d (Some (b :: bs)) p).1.2 = Some bs' →
  innerHTML <$> bs' = innerHTML <$> (b :: bs)
  ∧ ∀ c, c ≠ getPositionClass p →
      classList_contains c <$> bs' = classList_contains c <$> (b :: bs).
Proof.
  rewrite move_on_board_full. simpl. intros [= <-].
  destruct (clearPreviousPosition_keeps (getPositionClass p) (b :: bs))
    as [Hlabels Hclasses].
  destruct (item _ _).
  - split.
    + by rewrite fmap_update_same.
    + intros c Hc. rewrite fmap_update_same; [by apply Hclasses|].
      intros x. unfold classList_contains, classList_add. simpl.
      by apply contains_add_other.
  - split; [done | by apply Hclasses].
Qed.

Lemma move_keeps_other_markers_witness :
  innerHTML <$> [mkButton 6 ["position-of-player1"];
                 mkButton 4 ["founded-by-player2"]]
  = innerHTML <$> smallBoard.
Proof.
  apply (move_keeps_other_markers 1 (mkButton 6 ["position-of-player1"])
           [mkButton 4 ["founded-by-player2"]]
           [mkButton 6 []; mkButton 4 ["founded-by-player2";
                                       "position-of-player1"]]
           (freshPlayer 1 1)).
  reflexivity.
Defined.

(** On a board that has buttons, a sequence of moves takes the position
    along [walk]. *)
Lemma moves_walk ds b bs p :
  positionIndex (moves ds (Some (b :: bs)) p).1 = walk (positionIndex p) ds.
Proof.
  revert b bs p. induction ds as [|d ds IH]; intros b bs p; [done|].
  cbn [moves].
  destruct (move_on_board d b bs p) as (p' & bs' & -> & Hp & Hlen).
  destruct bs' as [|b' bs']; [done|].
  rewrite IH, Hp. done.
Qed.

(** A property checked on each of the 100 positions holds on all of them. *)
Lemma board_positions (P : Z → bool) :
  forallb P (seqZ 1 100) = true → ∀ z, 1 ≤ z ≤ 100 → P z = true.
Proof.
  intros Hall z Hz. rewrite forallb_forall in Hall. apply Hall.
  apply list_elem_of_In, elem_of_seqZ. lia.
Qed.

(** X4: on a board that has buttons and from a position of the board, a step
    right followed by a step left returns to the start exactly when the start
    is not 100, and a step left followed by a step right exactly when the
    start is not 1. *)
Theorem move_horizontal_round_trip (b : Button) (bs : list Button)
  (p : Player) :
  1 ≤ positionIndex p ≤ 100 →
  (positionIndex (moves [1; -1] (Some (b :: bs)) p).1 = positionIndex p
   ↔ positionIndex p ≠ 100)
  ∧ (positionIndex (moves [-1; 1] (Some (b :: bs)) p).1 = positionIndex p
     ↔ positionIndex p ≠ 1).
Proof.
  intros Hp. rewrite !moves_walk.
  pose proof (board_positions
    (λ z, Bool.eqb (walk z [1; -1] =? z) (negb (z =? 100))
          && Bool.eqb (walk z [-1; 1] =? z) (negb (z =? 1)))
    eq_refl (positionIndex p) Hp) as H.
  apply andb_true_iff in H as [H1 H2].
  apply Bool.eqb_prop in H1, H2.
  split.
  - rewrite <- Z.eqb_eq, H1, negb_true_iff, Z.eqb_neq. tauto.
  - rewrite <- Z.eqb_eq, H2, negb_true_iff, Z.eqb_neq. tauto.
Qed.

Lemma move_horizontal_round_trip_witness :
  positionIndex (moves [-1; 1] (Some board100) (freshPlayer 1 1)).1 ≠ 1.
Proof.
  pose proof (move_horizontal_round_trip (mkButton 1 []) (tail board100)
                (freshPlayer 1 1)) as H.
  destruct H as [_ H]; [vm_compute; intuition congruence|].
  intros Heq. by apply H in Heq.
Defined.

(** X5: on a board that has buttons and from a position of the board, a step
    down followed by a step up returns to the start exactly when the start is
    neither 91 nor 100, and a step up followed by a step down exactly when
    the start is neither 1 nor 2. *)
Theorem move_vertical_round_trip (b : Button) (bs : list Button)
  (p : Player) :
  1 ≤ positionIndex p ≤ 100 →
  (positionIndex (moves [10; -10] (Some (b :: bs)) p).1 = positionIndex p
   ↔ positionIndex p ≠ 91 ∧ positionIndex p ≠ 100)
  ∧ (positionIndex (moves [-10; 10] (Some (b :: bs)) p).1 = positionIndex p
     ↔ positionIndex p ≠ 1 ∧ positionIndex p ≠ 2).
Proof.
  intros Hp. rewrite !moves_walk.
  pose proof (board_positions
    (λ z, Bool.eqb (walk z [10; -10] =? z) (negb (z =? 91) && negb (z =? 100))
          && Bool.eqb (walk z [-10; 10] =? z) (negb (z =? 1) && negb (z =? 2)))
    eq_refl (positionIndex p) Hp) as H.
  apply andb_true_iff in H as [H1 H2].
  apply Bool.eqb_prop in H1, H2.
  split.
  - rewrite <- Z.eqb_eq, H1, andb_true_iff, !negb_true_iff, !Z.eqb_neq. tauto.
  - rewrite <- Z.eqb_eq, H2, andb_true_iff, !negb_true_iff, !Z.eqb_neq. tauto.
Qed.

Lemma move_vertical_round_trip_witness :
  positionIndex (moves [10; -10] (Some board100) (freshPlayer 1 95)).1 = 95.
Proof.
  pose proof (move_vertical_round_trip (mkButton 1 []) (tail board100)
                (freshPlayer 1 95)) as H.
  destruct H as [H _]; [vm_compute; intuition congruence|].
  apply H. vm_compute. intuition congruence.
Defined.

(** X6: on a board that has buttons, the step right is one-to-one on the
    positions of the board, while no step left and no step up from a position
    of the board lands on 100, and no step down lands on 2. *)
Theorem move_reachable_cells (b : Button) (bs : list Button) (p q : Player) :
  1 ≤ positionIndex p ≤ 100 →
  1 ≤ positionIndex q ≤ 100 →
  ((move 1 (Some (b :: bs)) p).2 = (move 1 (Some (b :: bs)) q).2 →
   positionIndex p = positionIndex q)
  ∧ (move (-1) (Some (b :: bs)) p).2 ≠ 100
  ∧ (move (-10) (Some (b :: bs)) p).2 ≠ 100
  ∧ (move 10 (Some (b :: bs)) p).2 ≠ 2.
Proof.
  intros Hp Hq.
  destruct (move_on_board 1 b bs p) as (? & ? & -> & _).
  destruct (move_on_board 1 b bs q) as (? & ? & -> & _).
  destruct (move_on_board (-1) b bs p) as (? & ? & -> & _).
  destruct (move_on_board (-10) b bs p) as (? & ? & -> & _).
  destruct (move_on_board 10 b bs p) as (? & ? & -> & _).
  cbn [snd].
  pose proof (board_positions
    (λ z, negb (nextPosition z (-1) =? 100) && negb (nextPosition z (-10) =? 100)
          && negb (nextPosition z 10 =? 2)
          && (nextPosition z 1 =? (if z =? 100 then 1 else z + 1)))
    eq_refl) as H.
  pose proof (H _ Hp) as Hzp. pose proof (H _ Hq) as Hzq.
  rewrite !andb_true_iff, !negb_true_iff, !Z.eqb_neq, Z.eqb_eq in Hzp, Hzq.
  destruct Hzp as [[[H1 H2] H3] H4]. destruct Hzq as [_ H5].
  repeat split; try done.
  rewrite H4, H5.
  destruct (positionIndex p =? 100) eqn:E1;
    destruct (positionIndex q =? 100) eqn:E2;
    rewrite ?Z.eqb_eq, ?Z.eqb_neq in *; lia.
Qed.

Lemma move_reachable_cells_witness :
  (move (-1) (Some board100) (freshPlayer 1 1)).2 ≠ 100.
Proof.
  apply (move_reachable_cells (mkButton 1 []) (tail board100)
           (freshPlayer 1 1) (freshPlayer 2 100));
    vm_compute; intuition congruence.
Defined.

(** X7: on a board that has buttons, the cell [move] lands on depends on the
    sum of the position and the direction alone: the cases of the boundary
    rule that test the direction never decide. *)
Theorem move_depends_on_sum (b : Button) (bs : list Button) (p q : Player)
  (d d' : Z) :
  positionIndex p + d = positionIndex q + d' →
  (move d (Some (b :: bs)) p).2 = (move d' (Some (b :: bs)) q).2.
Proof.
  intros Hsum.
  destruct (move_on_board d b bs p) as (? & ? & -> & _).
  destruct (move_on_board d' b bs q) as (? & ? & -> & _).
  cbn [snd]. unfold nextPosition. rewrite Hsum. f_equal.
  unfold adjustBoundaries.
  destruct (positionIndex q + d' =? 110) eqn:E1; [done|].
  destruct (positionIndex q + d' =? 101) eqn:E2; done.
Qed.

Lemma move_depends_on_sum_witness :
  (move 10 (Some board100) (freshPlayer 1 91)).2
  = (move 1 (Some board100) (freshPlayer 1 100)).2.
Proof.
  apply (move_depends_on_sum (mkButton 1 []) (tail board100)
           (freshPlayer 1 91) (freshPlayer 1 100) 10 1).
  reflexivity.
Defined.

(** ** Further properties of [Player.checkTarget] and [Player.incrementPower] *)

Lemma update_other_cells f bs i j :
  Z.of_nat j ≠ i → update f bs i !! j = bs !! j.
Proof.
  intros Hj. unfold update. destruct (i <? 0) eqn:Hi; [done|].
  apply Z.ltb_ge in Hi. apply list_lookup_alter_ne. lia.
Qed.

Lemma stolen_class_inj (i j : Z) :
  "stolen" +:+ pretty i = "stolen" +:+ pretty j → i = j.
Proof. intros H. simpl in H. injection H as H. by apply (inj pretty). Qed.

Lemma otherPlayerIndex_differs p : otherPlayerIndex p ≠ index p.
Proof.
  unfold otherPlayerIndex. destruct (index p =? 1) eqn:H.
  - apply Z.eqb_eq in H. lia.
  - apply Z.eqb_neq in H. lia.
Qed.

(** X8: [checkTarget] never changes the score, the move counter, the power
    or the position of the player, and when it reports the target found the
    player is unchanged altogether; on the board it keeps every label and
    every cell other than the one at [position]. *)
Theorem checkTarget_frame (position target : Z) (bs : list Button)
  (p : Player) :
  let '(p', bs', r) := checkTarget position bs target p in
  score p' = score p ∧ moveCount p' = moveCount p ∧ power p' = power p
  ∧ positionIndex p' = positionIndex p
  ∧ (r = ResultBool true → p' = p)
  ∧ innerHTML <$> bs' = innerHTML <$> bs
  ∧ ∀ j, Z.of_nat j ≠ position - 1 → bs' !! j = bs !! j.
Proof.
  unfold checkTarget.
  destruct (item bs (position - 1)) as [button|]; [|by repeat split].
  destruct (innerHTML button =? target).
  { repeat split; [by apply fmap_update_same|].
    intros j Hj. by apply update_other_cells. }
  destruct (classList_contains _ button).
  { repeat split; [done| |].
    - by rewrite !fmap_update_same.
    - intros j Hj. by rewrite !update_other_cells. }
  destruct (classList_contains _ button); [|by repeat split].
  repeat split; [done| |].
  - by rewrite !fmap_update_same.
  - intros j Hj. by rewrite !update_other_cells.
Qed.

(** The value [checkTarget] returns on a cell. *)
Lemma checkTarget_result position bs target p b :
  item bs (position - 1) = Some b →
  (checkTarget position bs target p).2
  = if innerHTML b =? target then ResultBool true
    else if stolenBy (index p) b then ResultString "stolen-recovered"
    else if stolenBy (otherPlayerIndex p) b then ResultString "saved"
    else ResultBool false.
Proof.
  intros Hb. unfold checkTarget. rewrite Hb.
  fold (stolenBy (index p) b). fold (stolenBy (otherPlayerIndex p) b).
  destruct (innerHTML b =? target); [done|].
  destruct (stolenBy (index p) b); [done|].
  by destruct (stolenBy (otherPlayerIndex p) b).
Qed.

(** X9: a recovery is not counted twice: when [checkTarget] returns
    ['saved'] or ['stolen-recovered'], the same call repeated at once on the
    resulting player and board does not return that string again. *)
Theorem checkTarget_recovery_not_repeated (position target : Z)
  (bs : list Button) (p : Player) (s : string) :
  (checkTarget position bs target p).2 = ResultString s →
  (checkTarget position (checkTarget position bs target p).1.2 target
               (checkTarget position bs target p).1.1).2
  ≠ ResultString s.
Proof.
  intros H.
  destruct (item bs (position - 1)) as [b|] eqn:Hb;
    [|by rewrite checkTarget_no_cell in H].
  rewrite (checkTarget_result _ _ _ _ b Hb) in H.
  destruct (innerHTML b =? target) eqn:Hlabel; [done|].
  destruct (stolenBy (index p) b) eqn:Hself.
  - injection H as <-.
    assert (checkTarget position bs target p
            = (set_powerCounter 0 (set_stolen (stolen p + 1) p),
               update (classList_add (getFoundClass p))
                 (update (classList_remove ("stolen" +:+ pretty (index p)))
                    bs (position - 1)) (position - 1),
               ResultString "stolen-recovered")) as ->.
    { unfold checkTarget. rewrite Hb, Hlabel.
      fold (stolenBy (index p) b). by rewrite Hself. }
    cbn [fst snd].
    destruct (recovered_cell p (index p) bs (position - 1) b Hb)
      as (b' & Hb' & _ & Hs & Hl).
    rewrite (checkTarget_result _ _ _ _ b' Hb'), Hl, Hlabel.
    change (index (set_powerCounter 0 (set_stolen (stolen p + 1) p)))
      with (index p).
    rewrite Hs.
    by destruct (stolenBy
                   (otherPlayerIndex
                      (set_powerCounter 0 (set_stolen (stolen p + 1) p))) b').
  - destruct (stolenBy (otherPlayerIndex p) b) eqn:Hother; [|done].
    injection H as <-.
    assert (checkTarget position bs target p
            = (set_powerCounter 0 (set_saves (saves p + 1) p),
               update (classList_add (getFoundClass p))
                 (update (classList_remove
                            ("stolen" +:+ pretty (otherPlayerIndex p)))
                    bs (position - 1)) (position - 1),
               ResultString "saved")) as ->.
    { unfold checkTarget. rewrite Hb, Hlabel.
      fold (stolenBy (index p) b). fold (stolenBy (otherPlayerIndex p) b).
      by rewrite Hself, Hother. }
    cbn [fst snd].
    destruct (recovered_cell p (otherPlayerIndex p) bs (position - 1) b Hb)
      as (b' & Hb' & _ & Hs & Hl).
    rewrite (checkTarget_result _ _ _ _ b' Hb'), Hl, Hlabel.
    change (otherPlayerIndex (set_powerCounter 0 (set_saves (saves p + 1) p)))
      with (otherPlayerIndex p).
    rewrite Hs.
    by destruct (stolenBy
                   (index (set_powerCounter 0 (set_saves (saves p + 1) p))) b').
Qed.

Lemma checkTarget_recovery_not_repeated_witness :
  (checkTarget 1
     (checkTarget 1 [mkButton 7 ["stolen2"]] 3 (freshPlayer 1 1)).1.2 3
     (checkTarget 1 [mkButton 7 ["stolen2"]] 3 (freshPlayer 1 1)).1.1).2
  ≠ ResultString "saved".
Proof.
  apply (checkTarget_recovery_not_repeated 1 3 [mkButton 7 ["stolen2"]]
           (freshPlayer 1 1) "saved").
  reflexivity.
Defined.

(** X10: [incrementPower] returns [true] exactly when the counter of the
    acting player was 2 and the opponent has a found element; the power goes
    up by one exactly when the counter was 2, found element or not; the
    counter goes up by one and the opponent's is reset in every case; and the
    board changes only when the call returns [true]. *)
Theorem incrementPower_outcome (p opponent : Player) (found : list nat)
  (random : nat) (board : list Button) :
  let '(p', opponent', board', stole) :=
    incrementPower opponent found random board p in
  (stole = true ↔ powerCounter p = 2 ∧ found ≠ [])
  ∧ power p' = (if powerCounter p =? 2 then power p + 1 else power p)
  ∧ powerCounter p' = powerCounter p + 1
  ∧ opponent' = set_powerCounter 0 opponent
  ∧ (stole = false → board' = board).
Proof.
  unfold incrementPower. cbn [powerCounter set_powerCounter].
  destruct (powerCounter p + 1 =? 3) eqn:H3.
  - apply Z.eqb_eq in H3.
    assert ((powerCounter p =? 2) = true) as -> by (apply Z.eqb_eq; lia).
    destruct found as [|e found]; cbn [length Nat.ltb Nat.leb].
    + repeat split; try done. by intros [_ ?].
    + repeat split; try done. lia.
  - apply Z.eqb_neq in H3.
    assert ((powerCounter p =? 2) = false) as -> by (apply Z.eqb_neq; lia).
    repeat split; try done. intros [? _]. lia.
Qed.

(** X11: when [incrementPower] steals, it steals one cell, which is one of
    the found elements of the opponent: that cell loses the found marker of
    the opponent and gains the stolen marker of the acting player, its label
    stays, and every other cell of the board is unchanged. *)
Theorem incrementPower_steals_one_cell (p opponent : Player)
  (found : list nat) (random : nat) (board : list Button) :
  powerCounter p = 2 → found ≠ [] →
  ∃ e, e ∈ found
    ∧ (∀ j, j ≠ e →
         (incrementPower opponent found random board p).1.2 !! j = board !! j)
    ∧ (∀ b, board !! e = Some b →
         ∃ b', (incrementPower opponent found random board p).1.2 !! e = Some b'
               ∧ stolenBy (index p) b' = true
               ∧ foundBy opponent b' = false
               ∧ innerHTML b' = innerHTML b).
Proof.
  intros Hc Hfound. unfold incrementPower. cbn [powerCounter set_powerCounter].
  rewrite Hc. change (2 + 1 =? 3) with true. cbv iota.
  destruct found as [|e0 found']; [done|].
  set (found := e0 :: found') in *.
  change (0 <? length found)%nat with true. cbv iota. cbn [fst snd].
  assert (Hlt : (random mod length found < length found)%nat)
    by (apply Nat.mod_upper_bound; done).
  exists (found !!! (random mod length found)%nat). split; [|split].
  - apply list_elem_of_lookup_2 with (random mod length found)%nat.
    by apply list_lookup_lookup_total_lt.
  - intros j Hj. by rewrite !list_lookup_alter_ne.
  - intros b Hb. eexists. split.
    + rewrite !list_lookup_alter_eq, Hb. reflexivity.
    + unfold stolenBy, foundBy, classList_contains, classList_add,
        classList_remove, getStolenClass, getFoundClass. simpl.
      split; [apply contains_add_same|]. split; [|done].
      rewrite contains_add_other; [apply contains_remove_same|].
      intros H. discriminate H.
Qed.

Lemma incrementPower_steals_one_cell_witness :
  ∃ e, e ∈ [1%nat]
    ∧ (∀ j, j ≠ e →
         (incrementPower (freshPlayer 2 2) [1%nat] 5 smallBoard
            (set_powerCounter 2 (freshPlayer 1 1))).1.2 !! j
         = smallBoard !! j)
    ∧ (∀ b, smallBoard !! e = Some b →
         ∃ b', (incrementPower (freshPlayer 2 2) [1%nat] 5 smallBoard
                  (set_powerCounter 2 (freshPlayer 1 1))).1.2 !! e = Some b'
               ∧ stolenBy 1 b' = true
               ∧ foundBy (freshPlayer 2 2) b' = false
               ∧ innerHTML b' = innerHTML b).
Proof.
  apply (incrementPower_steals_one_cell (set_powerCounter 2 (freshPlayer 1 1))
           (freshPlayer 2 2) [1%nat] 5 smallBoard); [reflexivity | done].
Defined.

(** X12: a steal is undone by the victim: after [incrementPower] of the
    thief stole the cell [e] from the victim, [checkTarget] of the victim on
    that cell, whose label is not the target and which the victim had not
    marked stolen itself, returns ['saved'], counts one save, resets the
    counter, and the cell is found by the victim again and no longer stolen
    by the thief.  The thief must carry the index the victim takes for its
    opponent. *)
Theorem steal_then_save (thief victim : Player) (e random : nat)
  (board : list Button) (b : Button) (target : Z) :
  powerCounter thief = 2 →
  board !! e = Some b →
  innerHTML b ≠ target →
  stolenBy (index victim) b = false →
  index thief = otherPlayerIndex victim →
  let '(_, victim', board', stole) :=
    incrementPower victim [e] random board thief in
  let '(victim'', board'', r) :=
    checkTarget (Z.of_nat e + 1) board' target victim' in
  stole = true
  ∧ r = ResultString "saved"
  ∧ saves victim'' = saves victim + 1
  ∧ powerCounter victim'' = 0
  ∧ ∃ b'', board'' !! e = Some b''
           ∧ foundBy victim b'' = true
           ∧ stolenBy (index thief) b'' = false
           ∧ innerHTML b'' = innerHTML b.
Proof.
  intros Hc Hb Hlabel Hself Hidx.
  unfold incrementPower. cbn [powerCounter set_powerCounter].
  rewrite Hc. change (2 + 1 =? 3) with true. cbv iota.
  change (0 <? length [e])%nat with true. cbv iota.
  change ([e] !!! (random mod length [e])%nat) with e.
  set (victim' := set_powerCounter 0 victim).
  set (thief' := set_power _ _).
  set (b' := classList_add (getStolenClass thief')
               (classList_remove (getFoundClass victim') b)).
  set (board' := alter _ e (alter _ e board)).
  assert (Hb' : item board' (Z.of_nat e + 1 - 1) = Some b').
  { unfold item. destruct (Z.of_nat e + 1 - 1 <? 0) eqn:Hneg;
      [apply Z.ltb_lt in Hneg; lia|].
    replace (Z.to_nat (Z.of_nat e + 1 - 1)) with e by lia.
    unfold board'. by rewrite !list_lookup_alter_eq, Hb. }
  assert (Hne : "stolen" +:+ pretty (index victim)
                ≠ "stolen" +:+ pretty (index thief)).
  { intros H. apply stolen_class_inj in H.
    pose proof (otherPlayerIndex_differs victim). congruence. }
  assert (Hself' : stolenBy (index victim) b' = false).
  { unfold stolenBy, classList_contains, b', classList_add, classList_remove.
    cbn [classList innerHTML].
    rewrite contains_add_other by done.
    rewrite contains_remove_other by apply found_is_not_stolen. done. }
  assert (Hother' : stolenBy (otherPlayerIndex victim) b' = true).
  { rewrite <- Hidx.
    unfold stolenBy, classList_contains, b', classList_add. cbn [classList].
    apply contains_add_same. }
  assert (Hlabel' : (innerHTML b' =? target) = false) by by apply Z.eqb_neq.
  unfold checkTarget. rewrite Hb', Hlabel'.
  change (index victim') with (index victim).
  change (otherPlayerIndex victim') with (otherPlayerIndex victim).
  fold (stolenBy (index victim) b').
  fold (stolenBy (otherPlayerIndex victim) b').
  rewrite Hself', Hother'.
  repeat split.
  destruct (recovered_cell victim' (otherPlayerIndex victim) board'
              (Z.of_nat e + 1 - 1) b' Hb') as (b'' & Hb'' & Hf & Hs & Hl).
  exists b''. rewrite <- Hidx in Hs.
  split; [|done].
  unfold item in Hb''.
  destruct (Z.of_nat e + 1 - 1 <? 0) eqn:Hneg; [done|].
  by replace (Z.to_nat (Z.of_nat e + 1 - 1)) with e in Hb'' by lia.
Qed.

Lemma steal_then_save_witness :
  let '(_, victim', board', stole) :=
    incrementPower (freshPlayer 2 2) [1%nat] 5 smallBoard
      (set_powerCounter 2 (freshPlayer 1 1)) in
  let '(victim'', board'', r) := checkTarget (Z.of_nat 1 + 1) board' 9 victim' in
  stole = true
  ∧ r = ResultString "saved"
  ∧ saves victim'' = saves (freshPlayer 2 2) + 1
  ∧ powerCounter victim'' = 0
  ∧ ∃ b'', board'' !! 1%nat = Some b''
           ∧ foundBy (freshPlayer 2 2) b'' = true
           ∧ stolenBy 1 b'' = false
           ∧ innerHTML b'' = 4.
Proof.
  apply (steal_then_save (set_powerCounter 2 (freshPlayer 1 1))
           (freshPlayer 2 2) 1 5 smallBoard
           (mkButton 4 ["founded-by-player2"]) 9);
    try reflexivity.
  vm_compute. congruence.
Defined.

(** ** Properties of the constructor of [Player] *)

Lemma or_string_nonempty a d : d ≠ "" → or_string a d ≠ "".
Proof.
  intros Hd. unfold or_string. destruct a as [s|]; [|done].
  by case_bool_decide.
Qed.

(** X13: whatever the configuration, a player comes out of the constructor
    with every counter at 0 and not ready, with a name, a colour and five key
    bindings that are not empty, and on a position other than 0: a missing or
    empty entry, and a start position 0, give way to the default. *)
Theorem constructor_defaults (config : Config) :
  let p := constructor config in
  (score p = 0 ∧ moveCount p = 0 ∧ power p = 0 ∧ powerCounter p = 0
   ∧ saves p = 0 ∧ stolen p = 0 ∧ isReady p = false)
  ∧ index p = cfg_index config
  ∧ (name p ≠ "" ∧ color p ≠ ""
     ∧ Controls.up (controls p) ≠ "" ∧ Controls.right (controls p) ≠ ""
     ∧ Controls.down (controls p) ≠ "" ∧ Controls.left (controls p) ≠ ""
     ∧ Controls.confirm (controls p) ≠ "")
  ∧ positionIndex p ≠ 0.
Proof.
  cbv zeta. unfold constructor. cbn [score moveCount power powerCounter saves
    stolen isReady index name color controls positionIndex Controls.up
    Controls.right Controls.down Controls.left Controls.confirm].
  split; [done|]. split; [done|]. split.
  - unfold control_or. repeat split; by apply or_string_nonempty.
  - unfold or_number. destruct (cfg_startPosition config) as [n|]; [|done].
    destruct (n =? 0) eqn:Hn; [done|]. by apply Z.eqb_neq.
Qed.

(** ** Further properties of [MultiplayerGame.updateGameState] *)

Section ReconcilerState.

Variable updatePosition :
  Z → list Button → MultiplayerPlayer.t → MultiplayerPlayer.t * list Button.
Variable addFoundAnimation :
  nat → list Button → MultiplayerPlayer.t → list Button.

Local Abbreviation updateGameState :=
  (updateGameState updatePosition addFoundAnimation).
Local Abbreviation updatePlayers := (updatePlayers updatePosition).
Local Abbreviation updatePlayer := (updatePlayer updatePosition).
Local Abbreviation handleTargetFound := (handleTargetFound addFoundAnimation).

Lemma updatePlayer_target g sp :
  currentTarget (updatePlayer g sp) = currentTarget g.
Proof.
  unfold updatePlayer.
  destruct (list_find _ (players g)) as [[i player]|]; [|done].
  by destruct (if bool_decide _ then _ else _) as [player' bs].
Qed.

Lemma updatePlayer_length g sp :
  length (players (updatePlayer g sp)) = length (players g).
Proof.
  unfold updatePlayer.
  destruct (list_find _ (players g)) as [[i player]|]; [|done].
  destruct (if bool_decide _ then _ else _) as [player' bs].
  cbn [players set_buttons set_players]. apply length_insert.
Qed.

Lemma foldl_updatePlayer_keeps g sps :
  currentTarget (foldl updatePlayer g sps) = currentTarget g
  ∧ length (players (foldl updatePlayer g sps)) = length (players g).
Proof.
  revert g. induction sps as [|sp sps IH]; intros g; [done|].
  cbn [foldl]. destruct (IH (updatePlayer g sp)) as [-> ->].
  by rewrite updatePlayer_target, updatePlayer_length.
Qed.

Lemma handleTargetFound_keeps lastMove g :
  players (handleTargetFound lastMove g).1 = players g
  ∧ currentTarget (handleTargetFound lastMove g).1 = currentTarget g.
Proof. unfold handleTargetFound. repeat case_match; done. Qed.

Lemma checkTargetExhausted_keeps room g :
  players (checkTargetExhausted room g).1 = players g
  ∧ currentTarget (checkTargetExhausted room g).1 = currentTarget g.
Proof. unfold checkTargetExhausted. by case_match. Qed.

Lemma checkHighScore_keeps room g :
  players (checkHighScore room g).1 = players g
  ∧ currentTarget (checkHighScore room g).1 = currentTarget g.
Proof. unfold checkHighScore. repeat case_match; done. Qed.

(** The last three phases leave the players and the target alone. *)
Lemma updateGameState_players_target room lastMove g :
  players (updateGameState room lastMove g).1
  = players (foldl updatePlayer (updateTarget room g).1 (Room.players room))
  ∧ currentTarget (updateGameState room lastMove g).1
    = Room.currentTarget room.
Proof.
  destruct (updateGameState_unfold updatePosition addFoundAnimation
              room lastMove g)
    as (g1 & e1 & g2 & e2 & g3 & e3 & H1 & _ & H2 & H3 & ->).
  cbn [fst].
  destruct (checkHighScore_keeps room g2) as [Hp3 Ht3].
  destruct (checkTargetExhausted_keeps room g1) as [Hp2 Ht2].
  destruct (handleTargetFound_keeps lastMove
              (updatePlayers room (updateTarget room g).1).1) as [Hp1 Ht1].
  rewrite <- H3 in Hp3, Ht3. rewrite <- H2 in Hp2, Ht2.
  rewrite <- H1 in Hp1, Ht1. cbn [fst] in *.
  rewrite Hp3, Hp2, Hp1, Ht3, Ht2, Ht1. split; [done|].
  unfold updatePlayers. cbn [fst].
  destruct (foldl_updatePlayer_keeps (updateTarget room g).1
              (Room.players room)) as [-> _].
  unfold updateTarget. by case_bool_decide.
Qed.

(** X14: after [updateGameState] the target of the client is the target of
    the snapshot, larger or smaller; the target display is updated once,
    with that target, when the two differed, and not at all when they were
    equal. *)
Theorem updateGameState_adopts_target (g : MultiplayerGame) (room : Room.t)
  (lastMove : option LastMove.t) :
  currentTarget (updateGameState room lastMove g).1 = Room.currentTarget room
  ∧ targetUpdates (updateGameState room lastMove g).2
    = (if bool_decide (Room.currentTarget room = currentTarget g)
       then [] else [Room.currentTarget room]).
Proof.
  split; [apply updateGameState_players_target|].
  destruct (updateGameState_unfold updatePosition addFoundAnimation
              room lastMove g)
    as (g1 & e1 & g2 & e2 & g3 & e3 & H1 & _ & H2 & H3 & ->).
  cbn [snd]. unfold targetUpdates. rewrite !omap_app.
  assert (omap (λ e, match e with UiUpdateTarget t => Some t | _ => None end)
            e1 = []) as ->.
  { replace e1 with (g1, e1).2 by done. rewrite H1.
    unfold handleTargetFound. repeat case_match; done. }
  assert (omap (λ e, match e with UiUpdateTarget t => Some t | _ => None end)
            e2 = []) as ->.
  { replace e2 with (g2, e2).2 by done. rewrite H2.
    unfold checkTargetExhausted. by case_match. }
  assert (omap (λ e, match e with UiUpdateTarget t => Some t | _ => None end)
            e3 = []) as ->.
  { replace e3 with (g3, e3).2 by done. rewrite H3.
    unfold checkHighScore. repeat case_match; done. }
  rewrite !app_nil_r. unfold updateTarget.
  repeat case_bool_decide; done.
Qed.

(** The roster of the client keeps its size. *)
Lemma updateGameState_keeps_roster_size (g : MultiplayerGame)
  (room : Room.t) (lastMove : option LastMove.t) :
  length (players (updateGameState room lastMove g).1) = length (players g).
Proof.
  destruct (updateGameState_players_target room lastMove g) as [-> _].
  destruct (foldl_updatePlayer_keeps (updateTarget room g).1
              (Room.players room)) as [_ ->].
  unfold updateTarget. by case_bool_decide.
Qed.

(** X16: the found marker and the found animation come together: the found
    effects of an update are none, or the marker on a cell followed by the
    animation on that cell for the player named in [lastMove]. *)
Theorem found_marker_with_animation (g : MultiplayerGame) (room : Room.t)
  (lastMove : option LastMove.t) :
  foundEffects (updateGameState room lastMove g).2 = []
  ∨ ∃ lm cell cls,
      lastMove = Some lm
      ∧ foundEffects (updateGameState room lastMove g).2
        = [FoundClassAdded cell cls;
           FoundAnimationAdded (LastMove.playerId lm) cell].
Proof.
  rewrite updateGameState_foundEffects. unfold handleTargetFound.
  destruct lastMove as [lm|]; [|by left].
  destruct (_ && _); [|by left].
  destruct (list_find _ (players _)) as [[i player]|] eqn:Hfind; [|by left].
  apply list_find_Some in Hfind as (_ & Hid & _).
  destruct (list_find _ (buttons _)) as [[cell button]|]; [|by left].
  right. exists lm, cell, (MultiplayerPlayer.getFoundClass player).
  split; [done|]. rewrite bool_decide_eq_true_2 by done. cbn [snd].
  by rewrite Hid.
Qed.

(** X17: an update signals game over at most once, also when the target is
    above 100 and a score is above 50 at once. *)
Theorem game_over_signalled_at_most_once (g : MultiplayerGame)
  (room : Room.t) (lastMove : option LastMove.t) :
  (length (gameOverSignals (updateGameState room lastMove g).2) ≤ 1)%nat.
Proof.
  destruct (updateGameState_unfold updatePosition addFoundAnimation
              room lastMove g)
    as (g1 & e1 & g2 & e2 & g3 & e3 & H1 & _ & H2 & H3 & ->).
  cbn [snd]. rewrite !gameOverSignals_app, updateTarget_signals.
  pose proof (handleTargetFound_effects addFoundAnimation lastMove
                (updatePlayers room (updateTarget room g).1).1) as [He1 _].
  rewrite <- H1 in He1. cbn [snd] in He1. rewrite He1. cbn [app].
  unfold checkTargetExhausted in H2. unfold checkHighScore in H3.
  destruct (100 <? Room.currentTarget room).
  - inversion H2; subst g2 e2. cbn [gameRunning set_gameRunning] in H3.
    destruct (list_find _ (Room.players room)); inversion H3; simpl; lia.
  - inversion H2; subst g2 e2.
    destruct (list_find _ (Room.players room)); [|inversion H3; simpl; lia].
    destruct (gameRunning g1); inversion H3; simpl; lia.
Qed.

(** X18: a game that is over stays over, and an update it still receives
    signals game over again exactly when the target of the snapshot is above
    100: a score above 50 alone is not signalled a second time. *)
Theorem stopped_game_signals_on_target_only (g : MultiplayerGame)
  (room : Room.t) (lastMove : option LastMove.t) :
  gameRunning g = false →
  gameRunning (updateGameState room lastMove g).1 = false
  ∧ gameOverSignals (updateGameState room lastMove g).2
    = (if 100 <? Room.currentTarget room then [Room.players room] else []).
Proof.
  intros Hrun.
  split; [by apply updateGameState_stays_finished|].
  destruct (updateGameState_unfold updatePosition addFoundAnimation
              room lastMove g)
    as (g1 & e1 & g2 & e2 & g3 & e3 & H1 & Hrun1 & H2 & H3 & ->).
  cbn [snd]. rewrite !gameOverSignals_app, updateTarget_signals.
  pose proof (handleTargetFound_effects addFoundAnimation lastMove
                (updatePlayers room (updateTarget room g).1).1) as [He1 _].
  rewrite <- H1 in He1. cbn [snd] in He1. rewrite He1. cbn [app].
  unfold checkTargetExhausted in H2. unfold checkHighScore in H3.
  destruct (100 <? Room.currentTarget room).
  - inversion H2; subst g2 e2. cbn [gameRunning set_gameRunning] in H3.
    destruct (list_find _ (Room.players room)); by inversion H3.
  - inversion H2; subst g2 e2. rewrite Hrun1, Hrun in H3.
    destruct (list_find _ (Room.players room)); by inversion H3.
Qed.

End ReconcilerState.

Lemma stopped_game_signals_on_target_only_witness :
  gameOverSignals
    (updateGameState updatePosition_model addFoundAnimation_model
       (Room.mk [Room.mkPlayer "a" "Player 1" 4 51] 52) sampleMove
       (set_gameRunning false sampleGame)).2
  = [].
Proof.
  apply (stopped_game_signals_on_target_only updatePosition_model
           addFoundAnimation_model (set_gameRunning false sampleGame)
           (Room.mk [Room.mkPlayer "a" "Player 1" 4 51] 52) sampleMove).
  reflexivity.
Defined.

Section ReconcilerScores.

Variable updatePosition :
  Z → list Button → MultiplayerPlayer.t → MultiplayerPlayer.t * list Button.
Variable addFoundAnimation :
  nat → list Button → MultiplayerPlayer.t → list Button.

(** [updatePosition] mutates the player it is called on and leaves its
    identifier. *)
Hypothesis updatePosition_id :
  ∀ position bs p,
    MultiplayerPlayer.id (updatePosition position bs p).1
    = MultiplayerPlayer.id p.

Local Abbreviation updateGameState :=
  (updateGameState updatePosition addFoundAnimation).
Local Abbreviation updatePlayer := (updatePlayer updatePosition).

(** What [updatePlayer] does to the roster. *)
Lemma updatePlayer_roster g sp :
  match list_find (λ p, MultiplayerPlayer.id p = Room.id sp) (players g) with
  | None => players (updatePlayer g sp) = players g
  | Some (i, pl) =>
      ∃ pl', players (updatePlayer g sp) = <[i := pl']> (players g)
             ∧ MultiplayerPlayer.score pl' = Room.score sp
             ∧ MultiplayerPlayer.id pl' = MultiplayerPlayer.id pl
  end.
Proof.
  unfold updatePlayer.
  destruct (list_find _ (players g)) as [[i pl]|]; [|done].
  set (r := if bool_decide (MultiplayerPlayer.positionIndex pl
                            ≠ Room.position sp)
            then updatePosition (Room.position sp) (buttons g) pl
            else (pl, buttons g)).
  assert (MultiplayerPlayer.id r.1 = MultiplayerPlayer.id pl) as Hid.
  { unfold r. case_bool_decide; [apply updatePosition_id | done]. }
  clearbody r. destruct r as [pl1 bs]. cbn [fst] in Hid.
  eexists. split; [reflexivity|].
  case_bool_decide as Hscore.
  - split; [done | exact Hid].
  - split; [exact Hscore | exact Hid].
Qed.

Lemma updatePlayer_ids g sp :
  MultiplayerPlayer.id <$> players (updatePlayer g sp)
  = MultiplayerPlayer.id <$> players g.
Proof.
  pose proof (updatePlayer_roster g sp) as H.
  destruct (list_find _ (players g)) as [[i pl]|] eqn:Hfind; [|by rewrite H].
  destruct H as (pl' & -> & _ & Hid).
  apply list_find_Some in Hfind as (Hi & _).
  rewrite list_fmap_insert, Hid. apply list_insert_id.
  by rewrite list_lookup_fmap, Hi.
Qed.

Lemma find_by_id_same_index (l l' : list MultiplayerPlayer.t) x i pl :
  MultiplayerPlayer.id <$> l = MultiplayerPlayer.id <$> l' →
  list_find (λ p, MultiplayerPlayer.id p = x) l = Some (i, pl) →
  ∃ pl', list_find (λ p, MultiplayerPlayer.id p = x) l' = Some (i, pl').
Proof.
  intros Hids Hfind. apply list_find_Some in Hfind as (Hi & Hx & Hbefore).
  assert (Hlook : ∀ j, MultiplayerPlayer.id <$> l' !! j
                       = MultiplayerPlayer.id <$> l !! j).
  { intros j. by rewrite <- !list_lookup_fmap, Hids. }
  pose proof (Hlook i) as Hi'. rewrite Hi in Hi'.
  destruct (l' !! i) as [pl'|] eqn:Hl'; [|done].
  injection Hi' as Hid. exists pl'. apply list_find_Some.
  split; [done|]. split; [congruence|].
  intros j y Hj Hlt Hy. pose proof (Hlook j) as Hj'. rewrite Hj in Hj'.
  destruct (l !! j) as [z|] eqn:Hz; [|done]. injection Hj' as Hyz.
  apply (Hbefore j z Hz Hlt). congruence.
Qed.

(** A player whose identifier no player of the snapshot carries is left as
    it is. *)
Lemma foldl_updatePlayer_untouched sps g i pl :
  players g !! i = Some pl →
  (∀ sp, sp ∈ sps → Room.id sp ≠ MultiplayerPlayer.id pl) →
  players (foldl updatePlayer g sps) !! i = Some pl.
Proof.
  revert g. induction sps as [|sp0 sps IH]; intros g Hi Hne; [done|].
  cbn [foldl]. apply IH; [|intros sp Hsp; apply Hne; by right].
  pose proof (updatePlayer_roster g sp0) as H.
  destruct (list_find _ (players g)) as [[i0 pl0]|] eqn:Hfind;
    [|by rewrite H].
  destruct H as (pl' & -> & _ & _).
  apply list_find_Some in Hfind as (Hi0 & Hid0 & _).
  rewrite list_lookup_insert_ne; [done|].
  intros ->. rewrite Hi in Hi0. injection Hi0 as <-.
  apply (Hne sp0); [by left | done].
Qed.

Lemma foldl_updatePlayer_scores sps g sp i pl :
  NoDup (Room.id <$> sps) →
  sp ∈ sps →
  list_find (λ p, MultiplayerPlayer.id p = Room.id sp) (players g)
    = Some (i, pl) →
  ∃ pl', players (foldl updatePlayer g sps) !! i = Some pl'
         ∧ MultiplayerPlayer.score pl' = Room.score sp
         ∧ MultiplayerPlayer.id pl' = MultiplayerPlayer.id pl.
Proof.
  revert g pl. induction sps as [|sp0 sps IH]; intros g pl Hnodup Hin Hfind.
  { by apply elem_of_nil in Hin. }
  rewrite fmap_cons in Hnodup. apply NoDup_cons in Hnodup as [Hfresh Hnodup].
  cbn [foldl]. apply elem_of_cons in Hin as [-> | Hin].
  - pose proof (updatePlayer_roster g sp0) as H. rewrite Hfind in H.
    destruct H as (pl' & Hroster & Hscore & Hid).
    exists pl'. split; [|done].
    apply foldl_updatePlayer_untouched.
    + rewrite Hroster. apply list_lookup_insert_eq.
      apply list_find_Some in Hfind as (Hi & _). by eapply lookup_lt_Some.
    + intros sp Hsp Heq. apply Hfresh.
      apply list_find_Some in Hfind as (_ & Hx & _).
      rewrite Hid, Hx in Heq. rewrite <- Heq.
      by apply list_elem_of_fmap_2.
  - destruct (find_by_id_same_index (players g) (players (updatePlayer g sp0))
                (Room.id sp) i pl) as (pl1 & Hfind1);
      [by rewrite updatePlayer_ids | done |].
    destruct (IH (updatePlayer g sp0) pl1 Hnodup Hin Hfind1)
      as (pl' & Hl & Hscore & Hid).
    exists pl'. split; [done|]. split; [done|].
    apply list_find_Some in Hfind as (_ & Hx & _).
    apply list_find_Some in Hfind1 as (_ & Hx1 & _). congruence.
Qed.

Lemma foldl_updatePlayer_ids sps g :
  MultiplayerPlayer.id <$> players (foldl updatePlayer g sps)
  = MultiplayerPlayer.id <$> players g.
Proof.
  revert g. induction sps as [|sp sps IH]; intros g; [done|].
  cbn [foldl]. by rewrite IH, updatePlayer_ids.
Qed.

(** X15: [updateGameState] neither adds a player to the roster of the client
    nor removes or exchanges one: the roster carries the same identifiers in
    the same order afterwards.  A player of the snapshot that the client does
    not know is passed over, its identifier does not enter the roster; and a
    player of the client that the snapshot does not mention is left exactly
    as it was. *)
Theorem updateGameState_keeps_roster (g : MultiplayerGame) (room : Room.t)
  (lastMove : option LastMove.t) :
  MultiplayerPlayer.id <$> players (updateGameState room lastMove g).1
  = MultiplayerPlayer.id <$> players g
  ∧ (∀ sp, sp ∈ Room.players room →
       (∀ pl, pl ∈ players g → MultiplayerPlayer.id pl ≠ Room.id sp) →
       ∀ pl', pl' ∈ players (updateGameState room lastMove g).1 →
              MultiplayerPlayer.id pl' ≠ Room.id sp)
  ∧ (∀ i pl, players g !! i = Some pl →
       (∀ sp, sp ∈ Room.players room →
              Room.id sp ≠ MultiplayerPlayer.id pl) →
       players (updateGameState room lastMove g).1 !! i = Some pl).
Proof.
  destruct (updateGameState_players_target updatePosition addFoundAnimation
              room lastMove g) as [Hplayers _].
  assert (Hstart : players (updateTarget room g).1 = players g)
    by (unfold updateTarget; by case_bool_decide).
  assert (Hids : MultiplayerPlayer.id
                   <$> players (updateGameState room lastMove g).1
                 = MultiplayerPlayer.id <$> players g)
    by (by rewrite Hplayers, foldl_updatePlayer_ids, Hstart).
  split; [done|]. split.
  - intros sp _ Hunknown pl' Hin Heq.
    assert (Room.id sp ∈ MultiplayerPlayer.id <$> players g) as Hmem.
    { rewrite <- Hids, <- Heq. by apply list_elem_of_fmap_2. }
    apply list_elem_of_fmap in Hmem as (pl & Hid & Hpl).
    by apply (Hunknown pl Hpl).
  - intros i pl Hi Hne. rewrite Hplayers.
    apply foldl_updatePlayer_untouched; [by rewrite Hstart | done].
Qed.

(** X19: the score of the server wins: when the players of the snapshot
    carry distinct identifiers, every player of the snapshot that the client
    knows has, after [updateGameState], the score of the snapshot, whatever
    the client held before. *)
Theorem updateGameState_adopts_scores (g : MultiplayerGame) (room : Room.t)
  (lastMove : option LastMove.t) (sp : Room.player) (i : nat)
  (pl : MultiplayerPlayer.t) :
  NoDup (Room.id <$> Room.players room) →
  sp ∈ Room.players room →
  list_find (λ p, MultiplayerPlayer.id p = Room.id sp) (players g)
    = Some (i, pl) →
  ∃ pl', players (updateGameState room lastMove g).1 !! i = Some pl'
         ∧ MultiplayerPlayer.score pl' = Room.score sp
         ∧ MultiplayerPlayer.id pl' = MultiplayerPlayer.id pl.
Proof.
  intros Hnodup Hin Hfind.
  destruct (updateGameState_players_target updatePosition addFoundAnimation
              room lastMove g) as [-> _].
  apply foldl_updatePlayer_scores; [done..|].
  unfold updateTarget. by case_bool_decide.
Qed.

End ReconcilerScores.

Lemma updateGameState_keeps_roster_witness :
  MultiplayerPlayer.id
    <$> players
          (updateGameState updatePosition_model addFoundAnimation_model
             (Room.mk [Room.mkPlayer "a" "Player 1" 5 3;
                       Room.mkPlayer "z" "Player 2" 9 4] 2)
             sampleMove sampleGame).1
  = ["a"].
Proof.
  apply (updateGameState_keeps_roster updatePosition_model
           addFoundAnimation_model (λ _ _ _, eq_refl) sampleGame
           (Room.mk [Room.mkPlayer "a" "Player 1" 5 3;
                     Room.mkPlayer "z" "Player 2" 9 4] 2)
           sampleMove).
Defined.

Lemma updateGameState_adopts_scores_witness :
  ∃ pl', players
           (updateGameState updatePosition_model addFoundAnimation_model
              sampleRoom sampleConfirm sampleGame).1 !! 0%nat = Some pl'
         ∧ MultiplayerPlayer.score pl' = 1
         ∧ MultiplayerPlayer.id pl' = "a".
Proof.
  apply (updateGameState_adopts_scores updatePosition_model
           addFoundAnimation_model (λ _ _ _, eq_refl) sampleGame sampleRoom
           sampleConfirm (Room.mkPlayer "a" "Player 1" 1 1) 0
           (MultiplayerPlayer.mk "a" true (freshPlayer 1 1))).
  - apply NoDup_singleton.
  - apply list_elem_of_here.
  - reflexivity.
Defined.

Lemma updateGameStates_finished_witness :
  gameRunning
    (updateGameStates updatePosition_model addFoundAnimation_model
       [(sampleRoom, sampleConfirm);
        (Room.mk [Room.mkPlayer "a" "Player 1" 7 51] 52, sampleMove);
        (Room.mk [Room.mkPlayer "a" "Player 1" 8 51] 52, sampleMove)]
       sampleGame).1
  = false.
Proof.
  apply (updateGameStates_finished updatePosition_model addFoundAnimation_model
           sampleGame); [reflexivity|].
  apply Exists_cons_tl, Exists_cons_hd. right.
  exists (Room.mkPlayer "a" "Player 1" 7 51).
  split; [apply list_elem_of_here | simpl; lia].
Defined.

(** ** Properties of [movePlayer], [confirmSelection] and the key listener *)

Lemma movePlayer_emits_local_position_witness :
  (movePlayer (-10) sampleGame).2
  = [SocketEmit "player_move" (Some "ROOM") (Some "a") 90].
Proof.
  apply (movePlayer_emits_local_position (-10) sampleGame 0
           (MultiplayerPlayer.mk "a" true (freshPlayer 1 1))
           (mkButton 1 []) (tail board100));
    reflexivity.
Defined.

(** X21: the preview of a move is local: with a current player and a board
    that has buttons, [movePlayer] replaces that one entry of the roster by
    the player moved with the rule of [move], under the same identifier, and
    does so connected or not; without a connection nothing is sent. *)
Theorem movePlayer_previews_locally (d : Z) (g : MultiplayerGame) (i : nat)
  (pl : MultiplayerPlayer.t) (b : Button) (bs : list Button) :
  currentPlayer g = Some (i, pl) →
  buttons g = b :: bs →
  (∃ pl', players (movePlayer d g).1 = <[i := pl']> (players g)
          ∧ MultiplayerPlayer.positionIndex pl'
            = nextPosition (MultiplayerPlayer.positionIndex pl) d
          ∧ MultiplayerPlayer.id pl' = MultiplayerPlayer.id pl)
  ∧ (socketConnected g = false → (movePlayer d g).2 = []).
Proof.
  unfold currentPlayer. intros Hfind Hbs. unfold movePlayer.
  rewrite Hfind, Hbs.
  destruct (move_on_board d b bs (MultiplayerPlayer.super pl))
    as (p' & bs' & -> & Hpos & _).
  split.
  - eexists. split; [destruct (socketConnected g); reflexivity|].
    by split.
  - by intros ->.
Qed.

Lemma movePlayer_previews_locally_witness :
  (∃ pl', players (movePlayer 1 (mkGame (players sampleGame) 1 true board100
                                   false (Some "a") None)).1
          = <[0%nat := pl']> (players sampleGame)
          ∧ MultiplayerPlayer.positionIndex pl' = nextPosition 1 1
          ∧ MultiplayerPlayer.id pl' = "a")
  ∧ (false = false →
     (movePlayer 1 (mkGame (players sampleGame) 1 true board100
                      false (Some "a") None)).2 = []).
Proof.
  apply (movePlayer_previews_locally 1
           (mkGame (players sampleGame) 1 true board100 false (Some "a") None)
           0 (MultiplayerPlayer.mk "a" true (freshPlayer 1 1))
           (mkButton 1 []) (tail board100));
    reflexivity.
Defined.

Lemma movePlayer_effects d g :
  (movePlayer d g).2 = []
  ∨ socketConnected g = true
    ∧ ∃ position,
        (movePlayer d g).2
        = [SocketEmit "player_move" (roomCode g) (playerId g) position].
Proof.
  unfold movePlayer.
  destruct (list_find _ (players g)) as [[i pl]|]; [|by left].
  destruct (move d _ _) as [[p' bs'] r].
  destruct (socketConnected g); [right | by left].
  split; [done|]. by eexists.
Qed.

(** X22: [confirmSelection] never changes the state of the client: no cell
    is marked and no score moves before the server answers.  With a current
    player it sends one [player_confirm] carrying the position of that
    player when the client is connected and the position is on the board,
    and nothing otherwise. *)
Theorem confirmSelection_asks_server (g : MultiplayerGame) (i : nat)
  (pl : MultiplayerPlayer.t) :
  currentPlayer g = Some (i, pl) →
  (confirmSelection g).1 = g
  ∧ (confirmSelection g).2
    = (if socketConnected g
          && bool_decide (1 ≤ MultiplayerPlayer.positionIndex pl
                          ≤ Z.of_nat (length (buttons g)))
       then [SocketEmit "player_confirm" (roomCode g) (playerId g)
               (MultiplayerPlayer.positionIndex pl)]
       else []).
Proof.
  intros Hcur. unfold confirmSelection. rewrite Hcur.
  destruct (MultiplayerPlayer.positionIndex pl - 1 <? 0) eqn:Hlow.
  { apply Z.ltb_lt in Hlow. rewrite bool_decide_eq_false_2 by lia.
    by rewrite andb_false_r. }
  apply Z.ltb_ge in Hlow.
  destruct (Z.of_nat (length (buttons g))
            <=? MultiplayerPlayer.positionIndex pl - 1) eqn:Hhigh.
  { apply Z.leb_le in Hhigh. rewrite bool_decide_eq_false_2 by lia.
    by rewrite andb_false_r. }
  apply Z.leb_gt in Hhigh. cbn [orb].
  rewrite bool_decide_eq_true_2 by lia. rewrite andb_true_r.
  unfold item. destruct (_ <? 0) eqn:Hneg; [apply Z.ltb_lt in Hneg; lia|].
  destruct (buttons g !! _) as [button|] eqn:Hbutton.
  - by destruct (socketConnected g).
  - apply lookup_ge_None in Hbutton. lia.
Qed.

Lemma confirmSelection_asks_server_witness :
  (confirmSelection sampleGame).1 = sampleGame
  ∧ (confirmSelection sampleGame).2
    = [SocketEmit "player_confirm" (Some "ROOM") (Some "a") 1].
Proof.
  apply (confirmSelection_asks_server sampleGame 0
           (MultiplayerPlayer.mk "a" true (freshPlayer 1 1))).
  reflexivity.
Defined.

Lemma confirmSelection_effects g :
  (confirmSelection g).2 = []
  ∨ socketConnected g = true
    ∧ ∃ position,
        (confirmSelection g).2
        = [SocketEmit "player_confirm" (roomCode g) (playerId g) position].
Proof.
  unfold confirmSelection.
  destruct (currentPlayer g) as [[i pl]|]; [|by left].
  destruct (_ || _); [by left|].
  destruct (item _ _); [|by left].
  destruct (socketConnected g); [right | by left].
  split; [done|]. by eexists.
Qed.

(** X23: a key press makes the client send at most one message, a
    [player_move] or a [player_confirm] with its own room code and player
    identifier, and only when the game runs and the client is connected. *)
Theorem handleKeyDown_sends_at_most_one (key : string) (g : MultiplayerGame) :
  (handleKeyDown key g).2 = []
  ∨ gameRunning g = true ∧ socketConnected g = true
    ∧ ∃ event position,
        (event = "player_move" ∨ event = "player_confirm")
        ∧ (handleKeyDown key g).2
          = [SocketEmit event (roomCode g) (playerId g) position].
Proof.
  unfold handleKeyDown.
  destruct (gameRunning g); [|by left]. cbn [negb].
  destruct (currentPlayer g) as [[i pl]|]; [|by left].
  assert (Hmove : ∀ d,
            (movePlayer d g).2 = []
            ∨ true = true ∧ socketConnected g = true
              ∧ ∃ event position,
                  (event = "player_move" ∨ event = "player_confirm")
                  ∧ (movePlayer d g).2
                    = [SocketEmit event (roomCode g) (playerId g) position]).
  { intros d. destruct (movePlayer_effects d g) as [-> | (Hc & pos & ->)];
      [by left | right].
    repeat split; [done|]. exists "player_move", pos. split; [by left | done]. }
  repeat case_bool_decide; try apply Hmove; [|by left].
  destruct (confirmSelection_effects g) as [-> | (Hc & pos & ->)];
    [by left | right].
  repeat split; [done|]. exists "player_confirm", pos.
  split; [by right | done].
Qed.

Section KeysAfterGameOver.

Variable updatePosition :
  Z → list Button → MultiplayerPlayer.t → MultiplayerPlayer.t * list Button.
Variable addFoundAnimation :
  nat → list Button → MultiplayerPlayer.t → list Button.

(** X24: once an update has ended the game, the keys are dead: after a
    running game handled a snapshot with the target above 100 or a score
    above 50, a key press changes nothing and sends nothing, whatever the
    key. *)
Theorem keys_dead_after_game_over (g : MultiplayerGame) (room : Room.t)
  (lastMove : option LastMove.t) (key : string) :
  gameRunning g = true →
  100 < Room.currentTarget room ∨ highScore room →
  handleKeyDown key
    (updateGameState updatePosition addFoundAnimation room lastMove g).1
  = ((updateGameState updatePosition addFoundAnimation room lastMove g).1, []).
Proof.
  intros Hrun Hend.
  destruct (finishing_update updatePosition addFoundAnimation g room lastMove
              Hrun Hend) as [Hover _].
  unfold handleKeyDown. by rewrite Hover.
Qed.

End KeysAfterGameOver.

Lemma keys_dead_after_game_over_witness :
  (handleKeyDown "ArrowUp"
     (updateGameState updatePosition_model addFoundAnimation_model
        (Room.mk [Room.mkPlayer "a" "Player 1" 4 51] 52) sampleMove
        sampleGame).1).2
  = [].
Proof.
  rewrite (keys_dead_after_game_over updatePosition_model
             addFoundAnimation_model sampleGame
             (Room.mk [Room.mkPlayer "a" "Player 1" 4 51] 52) sampleMove
             "ArrowUp"); [reflexivity | reflexivity |].
  right. exists (Room.mkPlayer "a" "Player 1" 4 51).
  split; [apply list_elem_of_here | simpl; lia].
Defined.
